(** * Bearer-token authentication of the NATS server (server/bearer_auth.go)

    A shallow embedding of [BearerAuth.readPublicKey] and [BearerAuth.Check]
    together with the parts of the libraries they call: the values that
    encoding/json decodes into, the parser of dgrijalva/jwt-go v3.2.0 (the
    version go.mod pins) and the two x/crypto/ssh calls of the key loader.

    Go code that can panic is modelled in a state monad whose results are
    either a value or a panic; the state is what the call can change: the
    connection, the server log and the reads of the key store. *)

From Stdlib Require Import ZArith Ascii String.
From stdpp Require Import gmap strings list fin_maps.

Set Warnings "-register-all".
Set Default Proof Using "Type".

Open Scope Z_scope.

(* ===================================================================== *)
(** ** Machine integers and floats *)

Definition min_int64 : Z := - 2 ^ 63.
Definition max_int64 : Z := 2 ^ 63 - 1.

Definition in_int64 (z : Z) : bool := (min_int64 <=? z) && (z <=? max_int64).

(** A finite float64: the number [mant * 2 ^ expo]. JSON has no literal for
    NaN or an infinity, so the floats that reach [Check] are finite. *)
Record float64 := { mant : Z; expo : Z }.

Definition float64_of_Z (n : Z) : float64 := {| mant := n; expo := 0 |}.

(** The integer part of a float, rounding towards zero. *)
Definition float64_trunc (f : float64) : Z :=
  if 0 <=? expo f then mant f * 2 ^ expo f
  else Z.quot (mant f) (2 ^ (- expo f)).

(** The Go conversion [int64(f)]. It truncates towards zero; when the result
    does not fit, Go leaves the value to the implementation, and amd64 gives
    the smallest int64. *)
Definition int64_of_float64 (f : float64) : Z :=
  let t := float64_trunc f in
  if in_int64 t then t else min_int64.

(* ===================================================================== *)
(** ** strconv and strings *)

Module strconv.

Definition digit (c : ascii) : option Z :=
  let n := Z.of_nat (nat_of_ascii c) in
  if (48 <=? n) && (n <=? 57) then Some (n - 48) else None.

Fixpoint digits (s : string) (acc : Z) : option Z :=
  match s with
  | EmptyString => Some acc
  | String c r =>
      match digit c with
      | Some d => digits r (10 * acc + d)
      | None => None
      end
  end.

Definition clamp (z : Z) : Z :=
  if z <? min_int64 then min_int64
  else if max_int64 <? z then max_int64 else z.

(** [strconv.ParseInt(s, 10, 64)]: the value, and whether the error is
    nil. A syntax error gives 0, a range error the nearest int64. *)
Definition ParseInt (s : string) : Z * bool :=
  let '(neg, body) :=
    match s with
    | String "-" r => (true, r)
    | String "+" r => (false, r)
    | _ => (false, s)
    end in
  match body with
  | EmptyString => (0, false)
  | _ =>
      match digits body 0 with
      | Some n =>
          let z := if neg then - n else n in
          (clamp z, in_int64 z)
      | None => (0, false)
      end
  end.

End strconv.

Module strings.

(** [strings.Replace(s, `\n`, "\n", -1)]: every backslash followed by
    the letter n becomes one line feed, left to right. *)
Fixpoint unescapeNewlines (s : string) : string :=
  match s with
  | String "\" (String "n" r) => String "010" (unescapeNewlines r)
  | String c r => String c (unescapeNewlines r)
  | EmptyString => EmptyString
  end.

End strings.

(* ===================================================================== *)
(** ** JSON texts and the Go values they decode into *)

Module json.

(** A JSON text, as it sits in a segment of the token. A number is kept
    as the float64 nearest to its literal. *)
Inductive text :=
| JNull
| JBool (b : bool)
| JNum (f : float64)
| JStr (s : string)
| JArr (l : list text)
| JObj (o : gmap string text).

(** The dynamic values behind an [interface{}] in [Check]: what the
    decoder builds, [json.Number] (built only by a decoder that was told
    [UseNumber]), and the typed values [Check] itself puts into the
    permissions map: [[]string] slices, an [int] and a [time.Duration]. *)
Inductive value :=
| Nil
| Bool (b : bool)
| Float64 (f : float64)
| Str (s : string)
| Number (s : string)
| Slice (l : list value)
| Map (m : gmap string value)
| StrSlice (l : list string)
| Int (n : Z).

(** Decoding into [interface{}] with the decoder's defaults: a number
    becomes a float64, an object a [map[string]interface{}]. *)
Fixpoint decode (j : text) : value :=
  match j with
  | JNull => Nil
  | JBool b => Bool b
  | JNum f => Float64 f
  | JStr s => Str s
  | JArr l => Slice (decode <$> l)
  | JObj o => Map (decode <$> o)
  end.

(** [json.Number.Int64], the value next to the dropped error. *)
Definition Number_Int64 (s : string) : Z := fst (strconv.ParseInt s).

End json.

Export json(text(..), value(..)).

(* ===================================================================== *)
(** ** Keys, tokens and what the libraries compute *)

(** [rsa.PublicKey]: modulus and public exponent. *)
Record PublicKey := { N : Z; E : Z }.

#[global] Instance PublicKey_eq_dec : EqDecision PublicKey.
Proof. solve_decision. Defined.

(** The bearer token of [ClientOpts.JWT], seen through the first step of the
    parser: either three base64url segments of which the first two hold JSON
    objects, or anything else. *)
Inductive BearerToken :=
| Garbled
| Compact (header payload : gmap string text) (signature : string).

(** The signing methods jwt-go registers, by the Go type of the method. The
    PSS methods have a type of their own, [*SigningMethodRSAPSS]. *)
Inductive SigningMethod :=
| SigningMethodHMAC (alg : string)
| SigningMethodRSA (alg : string)
| SigningMethodRSAPSS (alg : string)
| SigningMethodECDSA (alg : string)
| signingMethodNone.

(** What is computed outside this repository and outside the control flow
    that is modelled here: the two constants of server/const.go, the
    signature check, PEM parsing, the SSH wrapping and fingerprint of a key,
    and the integer that encoding/json reads back from the text it has
    printed for a float64 (none when that text is no integer literal of the
    field's range). *)
Record Externals := {
  DEFAULT_ALLOW_RESPONSE_MAX_MSGS : Z;
  DEFAULT_ALLOW_RESPONSE_EXPIRATION : Z;
  Method_Verify :
    SigningMethod -> gmap string text -> gmap string text -> string ->
    PublicKey -> bool;
  ParseRSAPublicKeyFromPEM : string -> option PublicKey;
  ssh_NewPublicKey : PublicKey -> option PublicKey;
  ssh_fingerprint : PublicKey -> string;
  intOfFloatText : float64 -> option Z
}.

(* ===================================================================== *)
(** ** Permissions (server/auth.go) *)

(** Modelled from the spec: the struct declarations of server/auth.go are
    not part of the sources at hand. The policy has three rule groups; a
    group is a pointer and can be nil; publish and subscribe hold an allow
    and a deny slice, each nil or a list; responses holds a count and a
    time-to-live. The JSON names of the fields are those [Check] writes. *)
Record SubjectPermission := {
  Allow : option (list string);
  Deny : option (list string)
}.

Record ResponsePermission := { MaxMsgs : Z; Expires : Z }.

Record Permissions := {
  Publish : option SubjectPermission;
  Subscribe : option SubjectPermission;
  Response : option ResponsePermission
}.

Record User := { user_Permissions : Permissions }.

(* ===================================================================== *)
(** ** The JSON round trip of lines 108-109 *)

Section Unmarshal.
Context (ext : Externals).

(** An element of a [[]string]: a JSON string is stored, anything else
    leaves the zero value of the fresh element. *)
Definition unmarshalElem (v : value) : string :=
  match v with
  | Str s => s
  | _ => EmptyString
  end.

(** A [[]string] field. A missing key leaves the nil slice, null sets it,
    an array fills a new slice, and any other value is a type error that
    [Unmarshal] records and steps over. *)
Definition unmarshalStrings (field : option value) : option (list string) :=
  match field with
  | Some (Slice l) => Some (unmarshalElem <$> l)
  | Some (StrSlice l) => Some l
  | _ => None
  end.

(** An [int] or [time.Duration] field, zero in the new struct. *)
Definition unmarshalInt (field : option value) : Z :=
  match field with
  | Some (Int n) => n
  | Some (Float64 f) => default 0 (intOfFloatText ext f)
  | Some (Number s) =>
      let '(n, ok) := strconv.ParseInt s in if ok then n else 0
  | _ => 0
  end.

(** A [*SubjectPermission] field, nil in the new [Permissions]. A missing
    key or null leaves nil; an object fills a new struct by the keys
    allow and deny; for a value of another type the decoder has already
    allocated the struct when it meets the type error. Keys are matched
    on the names of the tags; the decoder's second try, which folds letter
    case, is left out. *)
Definition unmarshalSubject (field : option value)
  : option SubjectPermission :=
  match field with
  | None | Some Nil => None
  | Some (Map m) =>
      Some {| Allow := unmarshalStrings (m !! "allow");
              Deny := unmarshalStrings (m !! "deny") |}
  | Some _ => Some {| Allow := None; Deny := None |}
  end.

Definition unmarshalResponse (field : option value)
  : option ResponsePermission :=
  match field with
  | None | Some Nil => None
  | Some (Map m) =>
      Some {| MaxMsgs := unmarshalInt (m !! "max");
              Expires := unmarshalInt (m !! "ttl") |}
  | Some _ => Some {| MaxMsgs := 0; Expires := 0 |}
  end.

(** [json.Marshal(permissionsClaim)] followed by
    [json.Unmarshal(permissionsRaw, &permissions)]. *)
Definition unmarshalPermissions (m : gmap string value) : Permissions :=
  {| Publish := unmarshalSubject (m !! "publish");
     Subscribe := unmarshalSubject (m !! "subscribe");
     Response := unmarshalResponse (m !! "responses") |}.

(** *** The defaults of lines 90-107 *)

Definition emptySubject : value :=
  Map (<["allow" := StrSlice []]> (<["deny" := StrSlice []]> ∅)).

Definition defaultResponses : value :=
  Map (<["max" := Int (DEFAULT_ALLOW_RESPONSE_MAX_MSGS ext)]>
       (<["ttl" := Int (DEFAULT_ALLOW_RESPONSE_EXPIRATION ext)]> ∅)).

(** [if _, ok := m[k]; !ok { m[k] = d }] *)
Definition setIfAbsent (k : string) (d : value) (m : gmap string value)
  : gmap string value :=
  match m !! k with
  | Some _ => m
  | None => <[k := d]> m
  end.

(** The permissions map after the three tests; [Check] writes into the
    map that the claims hold. *)
Definition applyDefaults (m : gmap string value) : gmap string value :=
  setIfAbsent "responses" defaultResponses
    (setIfAbsent "subscribe" emptySubject
       (setIfAbsent "publish" emptySubject m)).

(** Lines 89-109 as one step: the map as [Check] leaves it, and the
    policy read back from it. *)
Definition mapPermissions (m : gmap string value)
  : gmap string value * Permissions :=
  let m' := applyDefaults m in (m', unmarshalPermissions m').

End Unmarshal.

(* ===================================================================== *)
(** ** Errors, log lines and the state a call can change *)

Inductive Error :=
| ErrUnexpectedSigningAlg (alg : string)          (* line 55 *)
| ErrNoVerifier (kid : string)                    (* line 70 *)
| ErrMalformed
| ErrAlgUnavailable
| ErrAlgUnspecified
| ErrUnverifiable (inner : Error)
| ErrInvalid (expired usedBeforeIssued notValidYet badSignature : bool)
| ErrBadPEM
| ErrSSHKey.

Inductive Level := Trace | Debug | Warn.

Inductive Message :=
| MsgNoFingerprint (e : Error)                    (* line 42 *)
| MsgParseFailed (e : Error)                      (* line 77 *)
| MsgParsed                                       (* line 81 *)
| MsgNoPermissionsClaim                           (* line 111 *)
| MsgRegistering (p : Permissions)                (* line 115 *)
| MsgBadExpiration                                (* line 128 *)
| MsgEnforcing (exp : Z).                         (* line 137 *)

(** What a call leaves behind, oldest first: the lines it logs and the
    reads of [bearer.jwks] it makes. *)
Inductive Event :=
| Logged (l : Level) (m : Message)
| JwksRead (kid : string).

Definition isJwksRead (e : Event) : bool :=
  match e with
  | JwksRead _ => true
  | Logged _ _ => false
  end.

(** The authenticator with its key table, the connection under
    authentication, and the events so far. *)
Record World := {
  jwks : gmap string PublicKey;
  conn_user : option User;
  conn_expires : option Z;
  events : list Event
}.

Definition keyLookups (w : World) : list Event := filter isJwksRead (events w).

Inductive PanicValue := NilPointerDereference.

Inductive Res (A : Type) :=
| Val (a : A)
| Panicked (p : PanicValue).
Arguments Val {A} a.
Arguments Panicked {A} p.

(** A Go call: it runs on a world, and returns or panics. *)
Definition M (A : Type) : Type := World -> Res A * World.

#[global] Instance M_ret : MRet M := λ A a w, (Val a, w).

#[global] Instance M_bind : MBind M := λ A B f m w,
  match m w with
  | (Val a, w') => f a w'
  | (Panicked p, w') => (Panicked p, w')
  end.

Definition panic {A} (p : PanicValue) : M A := λ w, (Panicked p, w).

Definition emit (e : Event) : M unit := λ w,
  (Val (),
   {| jwks := jwks w; conn_user := conn_user w;
      conn_expires := conn_expires w; events := events w ++ [e] |}).

Definition Tracef (m : Message) : M unit := emit (Logged Trace m).
Definition Debugf (m : Message) : M unit := emit (Logged Debug m).
Definition Warnf (m : Message) : M unit := emit (Logged Warn m).

(** [bearer.jwks[kid]]: nil when the table has no such key. *)
Definition jwksGet (kid : string) : M (option PublicKey) := λ w,
  (Val (jwks w !! kid),
   {| jwks := jwks w; conn_user := conn_user w;
      conn_expires := conn_expires w; events := events w ++ [JwksRead kid] |}).

(** [bearer.jwks[fingerprint] = publicKey] *)
Definition jwksPut (fingerprint : string) (k : PublicKey) : M unit := λ w,
  (Val (),
   {| jwks := <[fingerprint := k]> (jwks w); conn_user := conn_user w;
      conn_expires := conn_expires w; events := events w |}).

(** Modelled from the spec: [RegisterUser] is a method of the connection
    types, which are not part of the sources at hand; it installs the
    identity on the connection. *)
Definition RegisterUser (u : User) : M unit := λ w,
  (Val (),
   {| jwks := jwks w; conn_user := Some u;
      conn_expires := conn_expires w; events := events w |}).

(** Modelled from the spec: [client.setExpiration] is in server/client.go,
    not part of the sources at hand; it records the deadline on the state of
    the connection's session. *)
Definition setExpiration (expires : Z) : M unit := λ w,
  (Val (),
   {| jwks := jwks w; conn_user := conn_user w;
      conn_expires := Some expires; events := events w |}).

(** The values a [ClientAuthentication] can hold: the server's [*client],
    or another implementation of the interface. *)
Inductive ClientAuthentication :=
| client (JWT : BearerToken)
| otherAuthentication (JWT : BearerToken).

Definition GetOpts_JWT (c : ClientAuthentication) : BearerToken :=
  match c with
  | client t | otherAuthentication t => t
  end.

(* ===================================================================== *)
(** ** github.com/dgrijalva/jwt-go v3.2.0 *)

Module jwt.

Record Token := {
  Header : gmap string value;
  Claims : gmap string value;
  Method : SigningMethod;
  Raw : BearerToken
}.

Definition Alg (m : SigningMethod) : string :=
  match m with
  | SigningMethodHMAC a | SigningMethodRSA a
  | SigningMethodRSAPSS a | SigningMethodECDSA a => a
  | signingMethodNone => "none"
  end.

(** The methods that register themselves when the package is loaded. *)
Definition GetSigningMethod (alg : string) : option SigningMethod :=
  if bool_decide (alg ∈ ["HS256"; "HS384"; "HS512"]) then
    Some (SigningMethodHMAC alg)
  else if bool_decide (alg ∈ ["RS256"; "RS384"; "RS512"]) then
    Some (SigningMethodRSA alg)
  else if bool_decide (alg ∈ ["PS256"; "PS384"; "PS512"]) then
    Some (SigningMethodRSAPSS alg)
  else if bool_decide (alg ∈ ["ES256"; "ES384"; "ES512"]) then
    Some (SigningMethodECDSA alg)
  else if bool_decide (alg = "none") then Some signingMethodNone
  else None.

(** [Parser.ParseUnverified] with a [MapClaims] target and no
    [UseJSONNumber]: split and decode the segments, then look the method
    up by the alg of the header. *)
Definition ParseUnverified (t : BearerToken) : Error + Token :=
  match t with
  | Garbled => inl ErrMalformed
  | Compact header payload _ =>
      let hdr := json.decode <$> header in
      match hdr !! "alg" with
      | Some (Str alg) =>
          match GetSigningMethod alg with
          | Some m =>
              inr {| Header := hdr; Claims := json.decode <$> payload;
                     Method := m; Raw := t |}
          | None => inl ErrAlgUnavailable
          end
      | _ => inl ErrAlgUnspecified
      end
  end.

(** [verifyExp], [verifyIat], [verifyNbf] of claims.go, with
    [required = false]. *)
Definition verifyExp (exp now : Z) : bool :=
  if exp =? 0 then true else now <=? exp.

Definition verifyIat (iat now : Z) : bool :=
  if iat =? 0 then true else iat <=? now.

Definition verifyNbf (nbf now : Z) : bool :=
  if nbf =? 0 then true else nbf <=? now.

(** The shape of [MapClaims.VerifyExpiresAt], [VerifyIssuedAt] and
    [VerifyNotBefore] called with [req = false]: a claim that is no number
    passes. *)
Definition verifyTime (check : Z -> Z -> bool) (claim : option value) (now : Z)
  : bool :=
  match claim with
  | Some (Float64 f) => check (int64_of_float64 f) now
  | Some (Number s) => check (json.Number_Int64 s) now
  | _ => true
  end.

Section Parse.
Context (ext : Externals).

(** [Parser.ParseWithClaims]: the key function is asked for the key,
    then the claims are validated against the clock and the signature is
    checked; the token is returned without an error when both pass. A
    panic of the key function passes through. *)
Definition Parse (now : Z) (t : BearerToken)
    (keyFunc : Token -> M (Error + PublicKey)) : M (Error + Token) :=
  match ParseUnverified t with
  | inl e => mret (inl e)
  | inr token =>
      k ← keyFunc token;
      match k with
      | inl e => mret (inl (ErrUnverifiable e))
      | inr key =>
          let m := Claims token in
          let expired := negb (verifyTime verifyExp (m !! "exp") now) in
          let early := negb (verifyTime verifyIat (m !! "iat") now) in
          let notyet := negb (verifyTime verifyNbf (m !! "nbf") now) in
          let badsig :=
            match t with
            | Compact header payload signature =>
                negb (Method_Verify ext (Method token) header payload
                        signature key)
            | Garbled => true
            end in
          if expired || early || notyet || badsig
          then mret (inl (ErrInvalid expired early notyet badsig))
          else mret (inr token)
      end
  end.

End Parse.

End jwt.

(* ===================================================================== *)
(** ** golang.org/x/crypto/ssh *)

Module ssh.
Section Fingerprint.
Context (ext : Externals).

(** [ssh.FingerprintLegacyMD5(pubKey)] starts with [pubKey.Marshal()],
    a method call on an interface value: on the nil interface that
    [NewPublicKey] returns next to an error it panics. *)
Definition FingerprintLegacyMD5 (pubKey : option PublicKey) : M string :=
  match pubKey with
  | Some k => mret (ssh_fingerprint ext k)
  | None => panic NilPointerDereference
  end.

End Fingerprint.
End ssh.

(* ===================================================================== *)
(** ** server/bearer_auth.go *)

Section BearerAuth.
Context (ext : Externals).

(** [readPublicKey], lines 33-49. [env] is the value of
    JWT_SIGNER_PUBLIC_KEY; the result is the returned error, if any. *)
Definition readPublicKey (env : string) : M (option Error) :=
  let jwtPublicKeyPEM := strings.unescapeNewlines env in
  match ParseRSAPublicKeyFromPEM ext jwtPublicKeyPEM with
  | None => mret (Some ErrBadPEM)
  | Some publicKey =>
      let sshPublicKey := ssh_NewPublicKey ext publicKey in
      match sshPublicKey with
      | None => Warnf (MsgNoFingerprint ErrSSHKey)
      | Some _ => mret ()
      end;;
      fingerprint ← ssh.FingerprintLegacyMD5 ext sshPublicKey;
      jwksPut fingerprint publicKey;;
      mret None
  end.

(** [bearerAuthFactory], lines 21-31: a new authenticator with an empty
    table, filled by [readPublicKey]; true when it is returned. *)
Definition bearerAuthFactory (env : string) : M bool :=
  (λ w, (Val (), {| jwks := ∅; conn_user := conn_user w;
                    conn_expires := conn_expires w; events := events w |}));;
  err ← readPublicKey env;
  match err with
  | Some _ => mret false
  | None => mret true
  end.

(** The key function handed to [jwt.Parse], lines 53-74. With no kid the
    pointer [kid] stays nil, no key is read, and line 70 formats [*kid]. *)
Definition keyFunc (_jwtToken : jwt.Token) : M (Error + PublicKey) :=
  match jwt.Method _jwtToken with
  | SigningMethodRSA _ =>
      let kid :=
        match jwt.Header _jwtToken !! "kid" with
        | Some (Str kidhdr) => Some kidhdr
        | _ => None
        end in
      publicKey ←
        match kid with
        | Some k => jwksGet k
        | None => mret None
        end;
      match publicKey with
      | Some key => mret (inr key)
      | None =>
          match kid with
          | Some k => mret (inl (ErrNoVerifier k))
          | None => panic NilPointerDereference
          end
      end
  | m => mret (inl (ErrUnexpectedSigningAlg (jwt.Alg m)))
  end.

(** The type switch of lines 122-130 on [claims["exp"]]. *)
Definition expOfClaim (expClaim : option value) : option Z :=
  match expClaim with
  | Some (Float64 f) => Some (int64_of_float64 f)
  | Some (Number n) => Some (json.Number_Int64 n)
  | _ => None
  end.

(** [Check], lines 51-143. [parseNow] is the clock as the parser reads it
    while it validates the claims, [now] the clock at line 132. The claims
    of a token that [jwt.Parse] returns are always a [MapClaims], so the
    test of lines 83-86 cannot fail. *)
Definition Check (parseNow now : Z) (c : ClientAuthentication) : M bool :=
  let bearerToken := GetOpts_JWT c in
  r ← jwt.Parse ext parseNow bearerToken keyFunc;
  match r with
  | inl err => Tracef (MsgParseFailed err);; mret false
  | inr jwtToken =>
      Debugf MsgParsed;;
      let claims := jwt.Claims jwtToken in
      match claims !! "permissions" with
      | Some (Map permissionsClaim) =>
          let '(permissionsClaim, permissions) :=
            mapPermissions ext permissionsClaim in
          let claims := <["permissions" := Map permissionsClaim]> claims in
          Tracef (MsgRegistering permissions);;
          RegisterUser {| user_Permissions := permissions |};;
          match c with
          | client _ =>
              match expOfClaim (claims !! "exp") with
              | Some exp =>
                  if now >=? exp then mret false
                  else
                    Tracef (MsgEnforcing exp);;
                    setExpiration exp;;
                    mret true
              | None => Tracef MsgBadExpiration;; mret false
              end
          | otherAuthentication _ => mret true
          end
      | _ => Warnf MsgNoPermissionsClaim;; mret false
      end
  end.

End BearerAuth.

(* ===================================================================== *)
(** ** Vocabulary of the statements *)

(** The algorithm names of the one family [keyFunc] lets through. *)
Definition rsaFamily : list string := ["RS256"; "RS384"; "RS512"].

(** The kid of a header, when it is there as a string. *)
Definition headerKid (header : gmap string text) : option string :=
  match header !! "kid" with
  | Some (JStr k) => Some k
  | _ => None
  end.

(** The permissions object of a payload, when it is there as an object. *)
Definition permissionsOf (payload : gmap string text)
  : option (gmap string text) :=
  match payload !! "permissions" with
  | Some (JObj o) => Some o
  | _ => None
  end.

(** [w'] is [w] with more events: the key table and the connection are
    the same. *)
Definition onlyEvents (w w' : World) : Prop :=
  jwks w' = jwks w ∧ conn_user w' = conn_user w
  ∧ conn_expires w' = conn_expires w
  ∧ ∃ evs, events w' = events w ++ evs.

(** The world after one more event. *)
Definition withEvent (w : World) (e : Event) : World :=
  {| jwks := jwks w; conn_user := conn_user w;
     conn_expires := conn_expires w; events := events w ++ [e] |}.

(** The world after the identity of a policy is installed and logged. *)
Definition registered (w : World) (p : Permissions) : World :=
  {| jwks := jwks w; conn_user := Some {| user_Permissions := p |};
     conn_expires := conn_expires w;
     events := (events w ++ [Logged Debug MsgParsed])
               ++ [Logged Trace (MsgRegistering p)] |}.

(* ===================================================================== *)
(** ** Vocabulary of the further statements *)

(** Whether a string holds a backslash followed by the letter n. *)
Fixpoint hasEscape (s : string) : bool :=
  match s with
  | String "\" (String "n" _) => true
  | String _ r => hasEscape r
  | EmptyString => false
  end.

(** The algorithm a header declares, when it is one of the RSA family. *)
Definition declaredRSA (header : gmap string text) : option string :=
  match header !! "alg" with
  | Some (JStr alg) =>
      if bool_decide (alg ∈ rsaFamily) then Some alg else None
  | _ => None
  end.

(** The token the parser builds from the segments of an RSA token. *)
Definition tokenOf (h p : gmap string text) (s alg : string) : jwt.Token :=
  {| jwt.Header := json.decode <$> h; jwt.Claims := json.decode <$> p;
     jwt.Method := SigningMethodRSA alg; jwt.Raw := Compact h p s |}.

(** The three time claims pass at the parser's clock and the signature
    verifies under the key. *)
Definition validates (ext : Externals) (pn : Z) (h p : gmap string text)
    (s alg : string) (key : PublicKey) : bool :=
  jwt.verifyTime jwt.verifyExp ((json.decode <$> p) !! "exp") pn
  && jwt.verifyTime jwt.verifyIat ((json.decode <$> p) !! "iat") pn
  && jwt.verifyTime jwt.verifyNbf ((json.decode <$> p) !! "nbf") pn
  && Method_Verify ext (SigningMethodRSA alg) h p s key.

(** The reads of the key table a token calls for: one, under its kid, when
    the header declares an RSA algorithm and has a kid that is a string. *)
Definition expectedLookups (t : BearerToken) : list Event :=
  match t with
  | Compact h _ _ =>
      match declaredRSA h, headerKid h with
      | Some _, Some kid => [JwksRead kid]
      | _, _ => []
      end
  | Garbled => []
  end.

(** A token that declares an RSA algorithm and has no kid that is a
    string. *)
Definition keyless (t : BearerToken) : bool :=
  match t with
  | Compact h _ _ =>
      match declaredRSA h, headerKid h with
      | Some _, None => true
      | _, _ => false
      end
  | Garbled => false
  end.

(** The world with one more entry in the key table. *)
Definition withKey (w : World) (fingerprint : string) (k : PublicKey) : World :=
  {| jwks := <[fingerprint := k]> (jwks w); conn_user := conn_user w;
     conn_expires := conn_expires w; events := events w |}.

(** The world of a new authenticator that holds one key. *)
Definition withOnlyKey (w : World) (fingerprint : string) (k : PublicKey)
  : World :=
  {| jwks := {[ fingerprint := k ]}; conn_user := conn_user w;
     conn_expires := conn_expires w; events := events w |}.

(** The world after the deadline of an admitted client is set and
    logged. *)
Definition withDeadline (w : World) (exp : Z) : World :=
  {| jwks := jwks w; conn_user := conn_user w; conn_expires := Some exp;
     events := events w ++ [Logged Trace (MsgEnforcing exp)] |}.

(** The policy [Check] derives from a permissions object of the token. *)
Definition policyOf (ext : Externals) (o : gmap string text) : Permissions :=
  unmarshalPermissions ext (applyDefaults ext (json.decode <$> o)).

(** The three names of the rule groups. *)
Definition groupKeys : list string := ["publish"; "subscribe"; "responses"].

(* ===================================================================== *)
(** ** Concrete tokens and libraries for the examples *)

Module Sample.

Definition key : PublicKey := {| N := 3233; E := 17 |}.

(** A signature check that accepts the signature ["good"]. *)
Definition verify (m : SigningMethod) (h p : gmap string text)
    (signature : string) (k : PublicKey) : bool :=
  bool_decide (signature = "good").

(** Libraries on which every key parses and has the fingerprint ["fp"]. *)
Definition ext : Externals :=
  {| DEFAULT_ALLOW_RESPONSE_MAX_MSGS := 1;
     DEFAULT_ALLOW_RESPONSE_EXPIRATION := 120000000000;
     Method_Verify := verify;
     ParseRSAPublicKeyFromPEM := λ _, Some key;
     ssh_NewPublicKey := λ k, Some k;
     ssh_fingerprint := λ _, "fp";
     intOfFloatText := λ f,
       if (expo f =? 0) && (Z.abs (mant f) <? 2 ^ 53) then Some (mant f)
       else None |}.


Definition started : World :=
  {| jwks := {[ "fp" := key ]}; conn_user := None; conn_expires := None;
     events := [] |}.

Definition fresh : World :=
  {| jwks := ∅; conn_user := None; conn_expires := None; events := [] |}.

Definition num (n : Z) : text := JNum (float64_of_Z n).

Definition header : gmap string text :=
  <["alg" := JStr "RS256"]>
    (<["typ" := JStr "JWT"]> (<["kid" := JStr "fp"]> ∅)).

Definition headerNoKid : gmap string text :=
  <["alg" := JStr "RS256"]> (<["typ" := JStr "JWT"]> ∅).

Definition headerHS : gmap string text :=
  <["alg" := JStr "HS256"]>
    (<["typ" := JStr "JWT"]> (<["kid" := JStr "fp"]> ∅)).

(** The policy claim of the spec's scenario: publish allows orders.* *)
Definition policyMap : gmap string text :=
  <["publish" := JObj (<["allow" := JArr [JStr "orders.*"]]> ∅)]> ∅.

Definition policy : text := JObj policyMap.

Definition payload (exp : option text) : gmap string text :=
  let m : gmap string text := <["permissions" := policy]> ∅ in
  match exp with
  | Some e => <["exp" := e]> m
  | None => m
  end.

Definition token (exp : option text) : BearerToken :=
  Compact header (payload exp) "good".



(** A token with a good signature and no policy claim. *)
Definition tokenNoPolicy : BearerToken :=
  Compact header (<["exp" := num 2000]> ∅) "good".

(** A complete policy claim. *)
Definition fullPolicy : gmap string value :=
  <["publish" := Map (<["allow" := Slice [Str "a"]]> ∅)]>
    (<["subscribe" := Nil]>
       (<["responses" := Map (<["max" := Float64 (float64_of_Z 5)]> ∅)]>
          ∅)).


(** What the parser returns for a sample token, and the world it
    leaves when it starts from [started]. *)
Definition parsed (t : BearerToken) : jwt.Token :=
  match t with
  | Compact h p _ =>
      {| jwt.Header := json.decode <$> h; jwt.Claims := json.decode <$> p;
         jwt.Method := SigningMethodRSA "RS256"; jwt.Raw := t |}
  | Garbled =>
      {| jwt.Header := ∅; jwt.Claims := ∅;
         jwt.Method := signingMethodNone; jwt.Raw := t |}
  end.

Definition afterParse : World := withEvent started (JwksRead "fp").

End Sample.

(* ===================================================================== *)
(** ** More concrete cases *)

Module Scenario.

(** Libraries on which no key text parses. *)
Definition extNoPEM : Externals :=
  {| DEFAULT_ALLOW_RESPONSE_MAX_MSGS := 1;
     DEFAULT_ALLOW_RESPONSE_EXPIRATION := 120000000000;
     Method_Verify := Sample.verify;
     ParseRSAPublicKeyFromPEM := λ _, None;
     ssh_NewPublicKey := λ k, Some k;
     ssh_fingerprint := λ _, "fp";
     intOfFloatText := λ _, None |}.

(** A connection that carries a user and a deadline from before, and a
    log that is not empty; the key table is that of [Sample.started]. *)
Definition busy : World :=
  {| jwks := {[ "fp" := Sample.key ]};
     conn_user :=
       Some {| user_Permissions :=
                 {| Publish := None; Subscribe := None; Response := None |} |};
     conn_expires := Some 5;
     events := [Logged Debug MsgParsed] |}.

(** A header whose kid is not in the table. *)
Definition headerOtherKid : gmap string text :=
  <["alg" := JStr "RS256"]>
    (<["typ" := JStr "JWT"]> (<["kid" := JStr "zz"]> ∅)).

(** A publish group with both lists. *)
Definition subjects : gmap string text :=
  <["allow" := JArr (JStr <$> ["orders.*"; "bills.>"])]>
    (<["deny" := JArr (JStr <$> ["orders.secret"])]> ∅).

Definition subjectsPolicy : gmap string text :=
  <["publish" := JObj subjects]> ∅.

(** The sample token with a signature that does not verify. *)
Definition forged : BearerToken :=
  Compact Sample.header (Sample.payload None) "bad".

End Scenario.

(* ===================================================================== *)
(** * Properties *)

Ltac run :=
  repeat first
    [ progress unfold mbind, M_bind, mret, M_ret, panic, Tracef, Debugf, Warnf,
        emit, RegisterUser, setExpiration, jwksGet, jwksPut
    | progress simpl ].

Section Properties.
Context (ext : Externals).

Lemma onlyEvents_refl w : onlyEvents w w.
Proof. repeat split. exists []. by rewrite app_nil_r. Qed.

Lemma keyLookups_log w l m :
  keyLookups (withEvent w (Logged l m)) = keyLookups w.
Proof.
  unfold keyLookups, withEvent. simpl.
  rewrite filter_app. simpl. by rewrite app_nil_r.
Qed.

(** The methods outside the RSA family have another Go type. *)
Lemma GetSigningMethod_not_rsa alg m :
  alg ∉ rsaFamily → jwt.GetSigningMethod alg = Some m →
  ∀ a, m ≠ SigningMethodRSA a.
Proof.
  intros Hout Hm a. unfold jwt.GetSigningMethod in Hm.
  repeat case_bool_decide; simplify_eq; done.
Qed.

Lemma GetSigningMethod_rsa alg :
  alg ∈ rsaFamily → jwt.GetSigningMethod alg = Some (SigningMethodRSA alg).
Proof.
  intros Hin. unfold rsaFamily in Hin. unfold jwt.GetSigningMethod.
  repeat (apply elem_of_cons in Hin as [-> | Hin]; [by vm_compute |]).
  by apply elem_of_nil in Hin.
Qed.

(** The key function changes nothing but the list of events. *)
Lemma keyFunc_onlyEvents tok w r w' :
  keyFunc tok w = (r, w') → onlyEvents w w'.
Proof.
  unfold keyFunc. intros H.
  destruct (jwt.Method tok); revert H; run;
    try (intros [= <- <-]; apply onlyEvents_refl).
  destruct (jwt.Header tok !! "kid") as [[| | |kid| | | | |]|]; run;
    try (intros [= <- <-]; apply onlyEvents_refl).
  destruct (jwks w !! kid); intros [= <- <-]; repeat split; by eexists.
Qed.

(** What a token returned by [jwt.Parse] has gone through. *)
Lemma Parse_ok_inv pn t w tok w1 :
  jwt.Parse ext pn t keyFunc w = (Val (inr tok), w1) →
  jwt.ParseUnverified t = inr tok
  ∧ (∃ key, keyFunc tok w = (Val (inr key), w1))
  ∧ jwt.verifyTime jwt.verifyExp (jwt.Claims tok !! "exp") pn = true.
Proof.
  unfold jwt.Parse. destruct (jwt.ParseUnverified t) as [e|token]; run.
  { intros [=]. }
  destruct (keyFunc token w) as [[[e|key]|p] w2] eqn:Hk; run;
    try (intros [=]; fail).
  destruct (jwt.verifyTime jwt.verifyExp _ pn) eqn:Hexp; run;
    [| intros [=]].
  match goal with |- context [if ?b then _ else _] => destruct b end;
    intros [= <- <-]; eauto.
Qed.

Lemma Parse_onlyEvents pn t w r w1 :
  jwt.Parse ext pn t keyFunc w = (r, w1) → onlyEvents w w1.
Proof.
  unfold jwt.Parse. destruct (jwt.ParseUnverified t) as [e|token]; run.
  { intros [= <- <-]. apply onlyEvents_refl. }
  destruct (keyFunc token w) as [[[e|key]|p] w2] eqn:Hk; run;
    apply keyFunc_onlyEvents in Hk.
  - by intros [= <- <-].
  - match goal with |- context [if ?b then _ else _] => destruct b end;
      by intros [= <- <-].
  - by intros [= <- <-].
Qed.

(** The claims and header of a parsed token are the decoded segments. *)
Lemma ParseUnverified_inv t tok :
  jwt.ParseUnverified t = inr tok →
  ∃ h p s alg,
    t = Compact h p s ∧ h !! "alg" = Some (JStr alg)
    ∧ jwt.GetSigningMethod alg = Some (jwt.Method tok)
    ∧ jwt.Header tok = json.decode <$> h
    ∧ jwt.Claims tok = json.decode <$> p.
Proof.
  destruct t as [|h p s]; simpl; [done|].
  rewrite lookup_fmap.
  destruct (h !! "alg") as [[| | |alg| |]|] eqn:Halg; simpl; try done.
  destruct (jwt.GetSigningMethod alg) eqn:Hm; [|done].
  intros [= <-]. by exists h, p, s, alg.
Qed.

(** The permissions entry of the decoded claims is a map exactly when
    the payload holds an object there. *)
Lemma decoded_permissions (p : gmap string text) :
  (json.decode <$> p) !! "permissions"
  = match p !! "permissions" with
    | Some j => Some (json.decode j)
    | None => None
    end.
Proof. rewrite lookup_fmap. by destruct (p !! "permissions"). Qed.

Lemma decoded_kid (h : gmap string text) :
  match (json.decode <$> h) !! "kid" with
  | Some (Str k) => Some k
  | _ => None
  end = headerKid h.
Proof.
  unfold headerKid. rewrite lookup_fmap.
  by destruct (h !! "kid") as [[]|].
Qed.

(** *** [Check], one outcome of the parser at a time *)

Lemma Check_parse_error pn now c w e w1 :
  jwt.Parse ext pn (GetOpts_JWT c) keyFunc w = (Val (inl e), w1) →
  Check ext pn now c w
  = (Val false, withEvent w1 (Logged Trace (MsgParseFailed e))).
Proof. intros HP. unfold Check. run. by rewrite HP. Qed.

Lemma Check_parse_panic pn now c w pv w1 :
  jwt.Parse ext pn (GetOpts_JWT c) keyFunc w = (Panicked pv, w1) →
  Check ext pn now c w = (Panicked pv, w1).
Proof. intros HP. unfold Check. run. by rewrite HP. Qed.

Lemma Check_no_permissions pn now c w tok w1 :
  jwt.Parse ext pn (GetOpts_JWT c) keyFunc w = (Val (inr tok), w1) →
  (∀ m, jwt.Claims tok !! "permissions" ≠ Some (Map m)) →
  Check ext pn now c w
  = (Val false,
     withEvent (withEvent w1 (Logged Debug MsgParsed))
       (Logged Warn MsgNoPermissionsClaim)).
Proof.
  intros HP Hno. unfold Check. run. rewrite HP.
  destruct (jwt.Claims tok !! "permissions") as [[]|]; try done.
  by destruct (Hno m).
Qed.

Lemma Check_other pn now t w tok w1 pc :
  jwt.Parse ext pn t keyFunc w = (Val (inr tok), w1) →
  jwt.Claims tok !! "permissions" = Some (Map pc) →
  Check ext pn now (otherAuthentication t) w
  = (Val true,
     registered w1 (unmarshalPermissions ext (applyDefaults ext pc))).
Proof. intros HP Hpc. unfold Check. run. by rewrite HP, Hpc. Qed.

Lemma Check_client pn now t w tok w1 pc :
  jwt.Parse ext pn t keyFunc w = (Val (inr tok), w1) →
  jwt.Claims tok !! "permissions" = Some (Map pc) →
  let w2 := registered w1 (unmarshalPermissions ext (applyDefaults ext pc)) in
  Check ext pn now (client t) w
  = match expOfClaim (jwt.Claims tok !! "exp") with
    | Some exp =>
        if now >=? exp then (Val false, w2)
        else
          (Val true,
           {| jwks := jwks w2; conn_user := conn_user w2;
              conn_expires := Some exp;
              events := events w2 ++ [Logged Trace (MsgEnforcing exp)] |})
    | None => (Val false, withEvent w2 (Logged Trace MsgBadExpiration))
    end.
Proof.
  intros HP Hpc. unfold Check. run. rewrite HP, Hpc.
  rewrite lookup_insert_ne by done.
  destruct (expOfClaim (jwt.Claims tok !! "exp")) as [exp|]; [|done].
  by destruct (now >=? exp).
Qed.

(** C1, as far as it holds and where it breaks: for a token of the RSA
    family whose header has no kid, or a kid that is no string, [Check]
    reads no key of the table, but it does not return false: the key
    function dereferences the nil kid and the panic leaves [Check]. *)
Theorem Check_missing_kid_panics pn now c h p s alg w :
  GetOpts_JWT c = Compact h p s →
  h !! "alg" = Some (JStr alg) →
  alg ∈ rsaFamily →
  headerKid h = None →
  Check ext pn now c w = (Panicked NilPointerDereference, w).
Proof.
  intros Hc Halg Hrsa Hkid. unfold Check. rewrite Hc.
  unfold jwt.Parse, jwt.ParseUnverified.
  rewrite lookup_fmap, Halg. simpl.
  rewrite (GetSigningMethod_rsa _ Hrsa).
  unfold keyFunc. simpl. rewrite decoded_kid, Hkid. by run.
Qed.

(** C3: a token whose header declares no algorithm of the RSA family (it
    declares another one, known to the parser or not, or none at all) is
    refused, [Check] returns false, and the refusal comes before any read
    of the key table: the only thing the call leaves is one trace line. *)
Theorem Check_rejects_foreign_alg_before_lookup pn now c h p s w :
  GetOpts_JWT c = Compact h p s →
  (∀ alg, h !! "alg" = Some (JStr alg) → alg ∉ rsaFamily) →
  ∃ e w',
    Check ext pn now c w = (Val false, w')
    ∧ w' = withEvent w (Logged Trace (MsgParseFailed e))
    ∧ keyLookups w' = keyLookups w.
Proof.
  intros Hc Hout. unfold Check. rewrite Hc.
  unfold jwt.Parse, jwt.ParseUnverified.
  rewrite lookup_fmap.
  destruct (h !! "alg") as [[| | |alg| |]|] eqn:Halg; simpl;
    try (run; eexists _, _; split_and!;
         [reflexivity | reflexivity | apply keyLookups_log]).
  specialize (Hout alg eq_refl).
  destruct (jwt.GetSigningMethod alg) as [m|] eqn:Hm.
  - pose proof (GetSigningMethod_not_rsa _ _ Hout Hm) as Hnot.
    unfold keyFunc. simpl.
    destruct m as [a|a|a|a|]; try (by destruct (Hnot a));
      (run; eexists _, _; split_and!;
       [reflexivity | reflexivity | apply keyLookups_log]).
  - run. eexists _, _. split_and!;
      [reflexivity | reflexivity | apply keyLookups_log].
Qed.


(** *** The defaults *)

Lemma setIfAbsent_present k d (m : gmap string value) :
  is_Some (m !! k) → setIfAbsent k d m = m.
Proof. intros [v Hv]. unfold setIfAbsent. by rewrite Hv. Qed.

Lemma setIfAbsent_lookup k d (m : gmap string value) :
  setIfAbsent k d m !! k = Some (default d (m !! k)).
Proof.
  unfold setIfAbsent. destruct (m !! k) as [v|] eqn:Hk; simpl.
  - done.
  - by rewrite lookup_insert_eq.
Qed.

Lemma setIfAbsent_lookup_ne k k' d (m : gmap string value) :
  k ≠ k' → setIfAbsent k d m !! k' = m !! k'.
Proof.
  intros Hne. unfold setIfAbsent. destruct (m !! k); [done|].
  by rewrite lookup_insert_ne.
Qed.

Lemma applyDefaults_publish m :
  applyDefaults ext m !! "publish"
  = Some (default emptySubject (m !! "publish")).
Proof.
  unfold applyDefaults.
  rewrite !setIfAbsent_lookup_ne by done. apply setIfAbsent_lookup.
Qed.

Lemma applyDefaults_subscribe m :
  applyDefaults ext m !! "subscribe"
  = Some (default emptySubject (m !! "subscribe")).
Proof.
  unfold applyDefaults.
  rewrite setIfAbsent_lookup_ne by done.
  rewrite setIfAbsent_lookup. by rewrite setIfAbsent_lookup_ne.
Qed.

Lemma applyDefaults_responses m :
  applyDefaults ext m !! "responses"
  = Some (default (defaultResponses ext) (m !! "responses")).
Proof.
  unfold applyDefaults.
  rewrite setIfAbsent_lookup. by rewrite !setIfAbsent_lookup_ne.
Qed.

Lemma applyDefaults_complete m :
  is_Some (m !! "publish") → is_Some (m !! "subscribe") →
  is_Some (m !! "responses") → applyDefaults ext m = m.
Proof.
  intros Hp Hs Hr. unfold applyDefaults.
  rewrite (setIfAbsent_present "publish") by done.
  rewrite (setIfAbsent_present "subscribe") by done.
  by rewrite (setIfAbsent_present "responses").
Qed.

Lemma applyDefaults_idem m :
  applyDefaults ext (applyDefaults ext m) = applyDefaults ext m.
Proof.
  apply applyDefaults_complete.
  - rewrite applyDefaults_publish. by eexists.
  - rewrite applyDefaults_subscribe. by eexists.
  - rewrite applyDefaults_responses. by eexists.
Qed.



(** C9: on a permissions claim that holds all three groups the defaulting
    step changes nothing, and mapping the claim as the first mapping has
    left it gives the same map and the same policy again. *)
Theorem applyDefaults_noop_on_complete (m : gmap string value) :
  is_Some (m !! "publish") →
  is_Some (m !! "subscribe") →
  is_Some (m !! "responses") →
  applyDefaults ext m = m
  ∧ mapPermissions ext (mapPermissions ext m).1 = mapPermissions ext m.
Proof.
  intros Hp Hs Hr. split.
  - by apply applyDefaults_complete.
  - unfold mapPermissions. simpl. by rewrite applyDefaults_idem.
Qed.


(** *** Expiration *)


(** C5, amended: for a real network connection whose token the parser
    has accepted and whose permissions were mapped, the expiration claim is
    accepted in one encoding only, a JSON number, and then [Check] returns
    whether the clock is strictly before it; a string, decimal or not, a
    boolean, null, an array, an object or no value at all makes [Check]
    return false. *)
Theorem Check_exp_encodings pn now h p s w tok w1 pc :
  jwt.Parse ext pn (Compact h p s) keyFunc w = (Val (inr tok), w1) →
  jwt.Claims tok !! "permissions" = Some (Map pc) →
  ∃ w',
    Check ext pn now (client (Compact h p s)) w
    = (Val match p !! "exp" with
           | Some (JNum f) => bool_decide (now < int64_of_float64 f)
           | _ => false
           end, w').
Proof.
  intros HP Hpc.
  rewrite (Check_client _ now _ _ _ _ _ HP Hpc).
  destruct (Parse_ok_inv _ _ _ _ _ HP) as (HU & _ & _).
  apply ParseUnverified_inv in HU
    as (h' & p' & s' & alg & [= <- <- <-] & _ & _ & _ & ->).
  rewrite lookup_fmap.
  destruct (p !! "exp") as [[]|]; simpl; try by eexists.
  destruct (Z.geb_spec now (int64_of_float64 f)).
  - rewrite bool_decide_eq_false_2 by lia. by eexists.
  - rewrite bool_decide_eq_true_2 by lia. by eexists.
Qed.


(** C8: for a real network connection [Check] returns true only when the
    clock is strictly before the decoded expiration, and that expiration is
    then the recorded deadline; once the parser has accepted the token and
    the permissions were mapped, an expiration at or before the clock
    gives false and leaves the deadline alone, a later one gives true and
    records it. *)
Theorem Check_client_strict_expiry pn now t w :
  (∀ w', Check ext pn now (client t) w = (Val true, w') →
         ∃ tok w1 e,
           jwt.Parse ext pn t keyFunc w = (Val (inr tok), w1)
           ∧ expOfClaim (jwt.Claims tok !! "exp") = Some e
           ∧ now < e ∧ conn_expires w' = Some e)
  ∧ (∀ tok w1 pc e,
       jwt.Parse ext pn t keyFunc w = (Val (inr tok), w1) →
       jwt.Claims tok !! "permissions" = Some (Map pc) →
       expOfClaim (jwt.Claims tok !! "exp") = Some e →
       (e ≤ now →
        ∃ w', Check ext pn now (client t) w = (Val false, w')
              ∧ conn_expires w' = conn_expires w)
       ∧ (now < e →
          ∃ w', Check ext pn now (client t) w = (Val true, w')
                ∧ conn_expires w' = Some e)).
Proof.
  split.
  - intros w'.
    destruct (jwt.Parse ext pn t keyFunc w) as [[[err|tok]|pv] w1] eqn:HP.
    + by rewrite (Check_parse_error _ now (client t) _ _ _ HP).
    + destruct (jwt.Claims tok !! "permissions") as [v|] eqn:Hpc.
      2: { by rewrite (Check_no_permissions _ now (client t) _ _ _ HP)
             by (rewrite Hpc; done). }
      destruct v as [| | | | |  |pc| |];
        try (by rewrite (Check_no_permissions _ now (client t) _ _ _ HP)
               by (rewrite Hpc; done)).
      rewrite (Check_client _ now _ _ _ _ _ HP Hpc).
      destruct (expOfClaim _) as [e|] eqn:He; [|done].
      destruct (Z.geb_spec now e); [done|].
      intros [= <-]. exists tok, w1, e. split_and!; [done | done | lia | done].
    + by rewrite (Check_parse_panic _ now (client t) _ _ _ HP).
  - intros tok w1 pc e HP Hpc He.
    rewrite (Check_client _ now _ _ _ _ _ HP Hpc), He.
    destruct (Parse_onlyEvents _ _ _ _ _ HP) as (_ & _ & Hx & _).
    destruct (Z.geb_spec now e); split; intros; try lia; by eexists.
Qed.


End Properties.

(* ===================================================================== *)
(** * The statements on concrete tokens *)

Import Sample.



(** The scenario of the spec with the expiration one second in the past: the
    parser itself refuses the token, and no identity is registered. *)
Example expired_by_one_second :
  Check ext 1000 1000 (client (token (Some (num 999)))) started
  = (Val false,
     withEvent afterParse
       (Logged Trace (MsgParseFailed (ErrInvalid true false false false)))).
Proof. by vm_compute. Qed.

(** The decoder in use never builds a [json.Number]. *)
Example decode_never_Number (j : text) (n : string) :
  json.decode j ≠ Number n.
Proof. by destruct j. Qed.

(** C1, witness: a token signed RS256 whose header has no kid. *)
Lemma Check_missing_kid_panics_witness :
  headerKid headerNoKid = None
  ∧ Check ext 1000 1000 (client (Compact headerNoKid (payload None) "good"))
      started
    = (Panicked NilPointerDereference, started).
Proof.
  split; [reflexivity|].
  apply (Check_missing_kid_panics ext 1000 1000 _ headerNoKid (payload None)
           "good" "RS256");
    [reflexivity | reflexivity | by vm_compute; left | reflexivity].
Defined.

(** C3, witness: a token that declares HS256. *)
Lemma Check_rejects_foreign_alg_before_lookup_witness :
  ("HS256" ∉ rsaFamily)
  ∧ ∃ e w',
      Check ext 1000 1000 (client (Compact headerHS (payload None) "good"))
        started = (Val false, w')
      ∧ w' = withEvent started (Logged Trace (MsgParseFailed e))
      ∧ keyLookups w' = keyLookups started.
Proof.
  assert ("HS256" ∉ rsaFamily) as Hout.
  { unfold rsaFamily. intros Hin.
    repeat (apply elem_of_cons in Hin as [Hin|Hin]; [discriminate Hin|]).
    by apply elem_of_nil in Hin. }
  split; [exact Hout|].
  apply (Check_rejects_foreign_alg_before_lookup ext 1000 1000 _ headerHS
           (payload None) "good"); [reflexivity|].
  intros alg [= <-]. exact Hout.
Defined.


(** C9, witness: a claim with all three groups, one of them null. *)
Lemma applyDefaults_noop_on_complete_witness :
  is_Some (fullPolicy !! "subscribe")
  ∧ applyDefaults ext fullPolicy = fullPolicy
  ∧ mapPermissions ext (mapPermissions ext fullPolicy).1
    = mapPermissions ext fullPolicy.
Proof.
  split; [by eexists|].
  apply (applyDefaults_noop_on_complete ext fullPolicy); by eexists.
Defined.





(** C5, counterexample: the same instant, 2000, as a number and as a
    decimal string, with the clock at 1000: the parser accepts both tokens,
    [Check] admits the number and refuses the string. The [json.Number] case
    of the switch, which no token reaches, would not agree with the float
    case either: a numeral written with a fraction reads as 0. *)
Lemma decimal_string_expiration_is_refused :
  jwt.Parse ext 1000 (token (Some (JStr "2000"))) keyFunc started
  = (Val (inr (parsed (token (Some (JStr "2000"))))), afterParse)
  ∧ (Check ext 1000 1000 (client (token (Some (JStr "2000")))) started).1
    = Val false
  ∧ (Check ext 1000 1000 (client (token (Some (num 2000)))) started).1
    = Val true
  ∧ expOfClaim (Some (Number "2000.0")) = Some 0
  ∧ expOfClaim (Some (Float64 (float64_of_Z 2000))) = Some 2000.
Proof. split_and!; by vm_compute. Qed.

(** C5, witness: the token whose expiration is a decimal string. *)
Lemma Check_exp_encodings_witness :
  payload (Some (JStr "2000")) !! "exp" = Some (JStr "2000")
  ∧ ∃ w',
      Check ext 1000 1000 (client (token (Some (JStr "2000")))) started
      = (Val false, w').
Proof.
  split; [by vm_compute|].
  apply (Check_exp_encodings ext 1000 1000 header (payload (Some (JStr "2000")))
           "good" started (parsed (token (Some (JStr "2000")))) afterParse
           (json.decode <$> policyMap)).
  - by vm_compute.
  - by vm_compute.
Defined.


(** C8, witness: an expiration of 2000 seen at 1000 and seen at 2000. *)
Lemma Check_client_strict_expiry_witness :
  (∃ w', Check ext 1000 1000 (client (token (Some (num 2000)))) started
         = (Val true, w')
         ∧ conn_expires w' = Some 2000)
  ∧ (∃ w', Check ext 1000 2000 (client (token (Some (num 2000)))) started
           = (Val false, w')
           ∧ conn_expires w' = conn_expires started).
Proof.
  split.
  - apply (proj2 (Check_client_strict_expiry ext 1000 1000
                    (token (Some (num 2000))) started)
             (parsed (token (Some (num 2000)))) afterParse
             (json.decode <$> policyMap) 2000);
      [by vm_compute | by vm_compute | by vm_compute | lia].
  - apply (proj2 (Check_client_strict_expiry ext 1000 2000
                    (token (Some (num 2000))) started)
             (parsed (token (Some (num 2000)))) afterParse
             (json.decode <$> policyMap) 2000);
      [by vm_compute | by vm_compute | by vm_compute | lia].
Defined.


(* ===================================================================== *)
(** * Further properties of the key loader and of [Check] *)

Section Coverage.
Context (ext : Externals).

(** *** The parser on each kind of token *)

Lemma declaredRSA_Some h alg :
  declaredRSA h = Some alg →
  h !! "alg" = Some (JStr alg)
  ∧ jwt.GetSigningMethod alg = Some (SigningMethodRSA alg).
Proof.
  unfold declaredRSA.
  destruct (h !! "alg") as [[| | |a| |]|]; try done.
  case_bool_decide as Hin; [|done].
  intros [= <-]. split; [done|]. by apply GetSigningMethod_rsa.
Qed.

Lemma ParseUnverified_rsa h p s alg :
  declaredRSA h = Some alg →
  jwt.ParseUnverified (Compact h p s) = inr (tokenOf h p s alg).
Proof.
  intros [Halg Hm]%declaredRSA_Some. unfold jwt.ParseUnverified.
  by rewrite lookup_fmap, Halg; simpl; rewrite Hm.
Qed.

Lemma Parse_garbled pn w :
  jwt.Parse ext pn Garbled keyFunc w = (Val (inl ErrMalformed), w).
Proof. reflexivity. Qed.

Lemma Parse_no_rsa pn h p s :
  declaredRSA h = None →
  ∃ e, ∀ w, jwt.Parse ext pn (Compact h p s) keyFunc w = (Val (inl e), w).
Proof.
  unfold declaredRSA, jwt.Parse, jwt.ParseUnverified. rewrite lookup_fmap.
  destruct (h !! "alg") as [[| | |alg| |]|]; simpl; try (by eexists).
  case_bool_decide as Hin; [done|]. intros _.
  destruct (jwt.GetSigningMethod alg) as [m|] eqn:Hm; [|by eexists].
  pose proof (GetSigningMethod_not_rsa _ _ Hin Hm) as Hnot.
  unfold keyFunc. simpl.
  destruct m as [a|a|a|a|]; try (by destruct (Hnot a)); run; by eexists.
Qed.

Lemma keyFunc_rsa h p s alg w :
  keyFunc (tokenOf h p s alg) w
  = match headerKid h with
    | Some kid =>
        (match jwks w !! kid with
         | Some key => Val (inr key)
         | None => Val (inl (ErrNoVerifier kid))
         end, withEvent w (JwksRead kid))
    | None => (Panicked NilPointerDereference, w)
    end.
Proof.
  unfold keyFunc. simpl. rewrite decoded_kid.
  destruct (headerKid h) as [kid|]; run; [|done].
  by destruct (jwks w !! kid).
Qed.

Lemma Parse_no_kid pn h p s alg w :
  declaredRSA h = Some alg → headerKid h = None →
  jwt.Parse ext pn (Compact h p s) keyFunc w
  = (Panicked NilPointerDereference, w).
Proof.
  intros Hrsa Hkid. unfold jwt.Parse.
  rewrite (ParseUnverified_rsa _ p s _ Hrsa). run.
  by rewrite keyFunc_rsa, Hkid.
Qed.

Lemma Parse_unknown_kid pn h p s alg kid w :
  declaredRSA h = Some alg → headerKid h = Some kid →
  jwks w !! kid = None →
  jwt.Parse ext pn (Compact h p s) keyFunc w
  = (Val (inl (ErrUnverifiable (ErrNoVerifier kid))),
     withEvent w (JwksRead kid)).
Proof.
  intros Hrsa Hkid Hnone. unfold jwt.Parse.
  rewrite (ParseUnverified_rsa _ p s _ Hrsa). run.
  by rewrite keyFunc_rsa, Hkid, Hnone.
Qed.

Lemma Parse_known_kid pn h p s alg kid key w :
  declaredRSA h = Some alg → headerKid h = Some kid →
  jwks w !! kid = Some key →
  (validates ext pn h p s alg key = true →
   jwt.Parse ext pn (Compact h p s) keyFunc w
   = (Val (inr (tokenOf h p s alg)), withEvent w (JwksRead kid)))
  ∧ (validates ext pn h p s alg key = false →
     ∃ e, jwt.Parse ext pn (Compact h p s) keyFunc w
          = (Val (inl e), withEvent w (JwksRead kid))).
Proof.
  intros Hrsa Hkid Hkey. unfold jwt.Parse, validates.
  rewrite (ParseUnverified_rsa _ p s _ Hrsa). run.
  rewrite keyFunc_rsa, Hkid, Hkey. simpl.
  destruct (jwt.verifyTime jwt.verifyExp _ pn);
    destruct (jwt.verifyTime jwt.verifyIat _ pn);
    destruct (jwt.verifyTime jwt.verifyNbf _ pn);
    destruct (Method_Verify ext _ h p s key); simpl;
    split; intros; try done; by eexists.
Qed.

(** A token that the parser returns is an RSA token whose kid names a
    key of the table under which it validates. *)
Lemma Parse_ok_sound pn t w tok w1 :
  jwt.Parse ext pn t keyFunc w = (Val (inr tok), w1) →
  ∃ h p s alg kid key,
    t = Compact h p s ∧ declaredRSA h = Some alg
    ∧ headerKid h = Some kid ∧ jwks w !! kid = Some key
    ∧ validates ext pn h p s alg key = true
    ∧ tok = tokenOf h p s alg ∧ w1 = withEvent w (JwksRead kid).
Proof.
  destruct t as [|h p s]; [by rewrite Parse_garbled|].
  destruct (declaredRSA h) as [alg|] eqn:Hrsa.
  2: { destruct (Parse_no_rsa pn h p s Hrsa) as [e ->]. done. }
  destruct (headerKid h) as [kid|] eqn:Hkid.
  2: { by rewrite (Parse_no_kid _ _ _ _ _ _ Hrsa Hkid). }
  destruct (jwks w !! kid) as [key|] eqn:Hkey.
  2: { by rewrite (Parse_unknown_kid _ _ _ _ _ _ _ Hrsa Hkid Hkey). }
  destruct (Parse_known_kid pn h p s alg kid key w Hrsa Hkid Hkey)
    as [Hyes Hno].
  destruct (validates ext pn h p s alg key) eqn:Hv.
  - rewrite (Hyes eq_refl). intros [= <- <-]. by exists h, p, s, alg, kid, key.
  - destruct (Hno eq_refl) as [e ->]. done.
Qed.

(** The parser reads the table as the token calls for, and no more. *)
Lemma Parse_events pn t w :
  events (jwt.Parse ext pn t keyFunc w).2 = events w ++ expectedLookups t.
Proof.
  destruct t as [|h p s]; [by rewrite Parse_garbled, app_nil_r|].
  unfold expectedLookups.
  destruct (declaredRSA h) as [alg|] eqn:Hrsa.
  2: { destruct (Parse_no_rsa pn h p s Hrsa) as [e ->].
       by rewrite app_nil_r. }
  destruct (headerKid h) as [kid|] eqn:Hkid.
  2: { by rewrite (Parse_no_kid _ _ _ _ _ _ Hrsa Hkid), app_nil_r. }
  destruct (jwks w !! kid) as [key|] eqn:Hkey.
  2: { by rewrite (Parse_unknown_kid _ _ _ _ _ _ _ Hrsa Hkid Hkey). }
  destruct (Parse_known_kid pn h p s alg kid key w Hrsa Hkid Hkey)
    as [Hyes Hno].
  destruct (validates ext pn h p s alg key) eqn:Hv.
  - by rewrite (Hyes eq_refl).
  - by destruct (Hno eq_refl) as [e ->].
Qed.

(** The parser panics on the keyless tokens and on no others. *)
Lemma Parse_panics pn t w :
  (∃ pv, (jwt.Parse ext pn t keyFunc w).1 = Panicked pv) ↔ keyless t = true.
Proof.
  destruct t as [|h p s]; unfold keyless.
  { rewrite Parse_garbled. simpl. split; [by intros [pv ?]|done]. }
  destruct (declaredRSA h) as [alg|] eqn:Hrsa.
  2: { destruct (Parse_no_rsa pn h p s Hrsa) as [e ->]. simpl.
       split; [by intros [pv ?]|done]. }
  destruct (headerKid h) as [kid|] eqn:Hkid.
  2: { rewrite (Parse_no_kid _ _ _ _ _ _ Hrsa Hkid). simpl.
       split; [done|]. by eexists. }
  destruct (jwks w !! kid) as [key|] eqn:Hkey.
  2: { rewrite (Parse_unknown_kid _ _ _ _ _ _ _ Hrsa Hkid Hkey). simpl.
       split; [by intros [pv ?]|done]. }
  destruct (Parse_known_kid pn h p s alg kid key w Hrsa Hkid Hkey)
    as [Hyes Hno].
  destruct (validates ext pn h p s alg key) eqn:Hv.
  - rewrite (Hyes eq_refl). simpl. split; [by intros [pv ?]|done].
  - destruct (Hno eq_refl) as [e ->]. simpl. split; [by intros [pv ?]|done].
Qed.

(** *** The claims of a parsed token, read from the payload *)


Lemma permissions_encoded h p s alg o :
  permissionsOf p = Some o →
  jwt.Claims (tokenOf h p s alg) !! "permissions"
  = Some (Map (json.decode <$> o)).
Proof.
  simpl. rewrite decoded_permissions. unfold permissionsOf.
  destruct (p !! "permissions") as [[| | | | |o']|]; simpl; try done.
  by intros [= <-].
Qed.


(** *** Every way [Check] can end *)

Lemma Check_cases pn now c w :
  (∃ e w1,
     jwt.Parse ext pn (GetOpts_JWT c) keyFunc w = (Val (inl e), w1)
     ∧ Check ext pn now c w
       = (Val false, withEvent w1 (Logged Trace (MsgParseFailed e))))
  ∨ (∃ pv w1,
       jwt.Parse ext pn (GetOpts_JWT c) keyFunc w = (Panicked pv, w1)
       ∧ Check ext pn now c w = (Panicked pv, w1))
  ∨ (∃ tok w1,
       jwt.Parse ext pn (GetOpts_JWT c) keyFunc w = (Val (inr tok), w1)
       ∧ (∀ m, jwt.Claims tok !! "permissions" ≠ Some (Map m))
       ∧ Check ext pn now c w
         = (Val false,
            withEvent (withEvent w1 (Logged Debug MsgParsed))
              (Logged Warn MsgNoPermissionsClaim)))
  ∨ (∃ tok w1 pc w2,
       jwt.Parse ext pn (GetOpts_JWT c) keyFunc w = (Val (inr tok), w1)
       ∧ jwt.Claims tok !! "permissions" = Some (Map pc)
       ∧ w2 = registered w1 (unmarshalPermissions ext (applyDefaults ext pc))
       ∧ ((∃ t, c = otherAuthentication t
                ∧ Check ext pn now c w = (Val true, w2))
          ∨ (∃ t, c = client t
                  ∧ expOfClaim (jwt.Claims tok !! "exp") = None
                  ∧ Check ext pn now c w
                    = (Val false,
                       withEvent w2 (Logged Trace MsgBadExpiration)))
          ∨ (∃ t e, c = client t
                    ∧ expOfClaim (jwt.Claims tok !! "exp") = Some e
                    ∧ e ≤ now
                    ∧ Check ext pn now c w = (Val false, w2))
          ∨ (∃ t e, c = client t
                    ∧ expOfClaim (jwt.Claims tok !! "exp") = Some e
                    ∧ now < e
                    ∧ Check ext pn now c w = (Val true, withDeadline w2 e)))).
Proof.
  destruct (jwt.Parse ext pn (GetOpts_JWT c) keyFunc w)
    as [[[e|tok]|pv] w1] eqn:HP.
  - left. exists e, w1. split; [done|].
    by apply (Check_parse_error ext pn now c w e w1).
  - destruct (jwt.Claims tok !! "permissions") as [v|] eqn:Hpc.
    2: { right; right; left. exists tok, w1.
         split_and!; [done | by rewrite Hpc |].
         apply (Check_no_permissions ext pn now c w tok w1 HP).
         by rewrite Hpc. }
    destruct v as [| | | | | |pc| |];
      try (right; right; left; exists tok, w1;
           split_and!; [done | by rewrite Hpc |];
           apply (Check_no_permissions ext pn now c w tok w1 HP);
           by rewrite Hpc).
    right; right; right.
    exists tok, w1, pc, (registered w1
                           (unmarshalPermissions ext (applyDefaults ext pc))).
    split_and!; [done|done|done|].
    destruct c as [t|t]; simpl in HP.
    + right. rewrite (Check_client ext pn now t w tok w1 pc HP Hpc).
      destruct (expOfClaim (jwt.Claims tok !! "exp")) as [e|] eqn:He.
      * destruct (Z.geb_spec now e).
        -- right; left. exists t, e. split_and!; [done|done|lia|done].
        -- right; right. exists t, e. split_and!; [done|done|lia|done].
      * left. by exists t.
    + left. exists t. split; [done|].
      by apply (Check_other ext pn now t w tok w1 pc).
  - right; left. exists pv, w1. split; [done|].
    by apply (Check_parse_panic ext pn now c w pv w1).
Qed.

Ltac check_cases pn now c w :=
  destruct (Check_cases pn now c w)
    as [(e & w1 & HP & HC)
       | [(pv & w1 & HP & HC)
         | [(tok & w1 & HP & Hno & HC)
           | (tok & w1 & pc & w2 & HP & Hpc & Hw2
              & [(t & Hc & HC)
                | [(t & Hc & He & HC)
                  | [(t & e & Hc & He & Hle & HC)
                    | (t & e & Hc & He & Hlt & HC)]]])]]].

Lemma filter_expectedLookups t :
  filter isJwksRead (expectedLookups t) = expectedLookups t.
Proof.
  destruct t as [|h p s]; [done|]. unfold expectedLookups.
  by destruct (declaredRSA h), (headerKid h).
Qed.

(** *** What [Check] leaves alone *)

(** X1: [Check] never writes to the key table, however it ends, a panic
    included. *)
Theorem Check_keeps_key_table pn now c w :
  jwks (Check ext pn now c w).2 = jwks w.
Proof.
  check_cases pn now c w; rewrite HC;
    destruct (Parse_onlyEvents ext _ _ _ _ _ HP) as (Hj & _);
    try subst w2; done.
Qed.

(** X2: [Check] reads the key table at most once, and only under the kid
    that the header of an RSA token names: the reads of a call are those
    the token calls for, whatever the outcome. *)
Theorem Check_key_reads pn now c w :
  keyLookups (Check ext pn now c w).2
  = keyLookups w ++ expectedLookups (GetOpts_JWT c).
Proof.
  pose proof (Parse_events pn (GetOpts_JWT c) w) as Hev.
  unfold keyLookups.
  check_cases pn now c w; rewrite HC; rewrite HP in Hev; simpl in Hev;
    try subst w2; simpl; rewrite ?filter_app, Hev, filter_app; simpl;
    by rewrite filter_expectedLookups, ?app_nil_r.
Qed.

(** X3: a deadline is recorded only on admission: whenever [Check] does not
    return true the deadline of the connection is what it was, and for a
    connection value that is no network client it is never touched. *)
Theorem Check_deadline_only_on_admission pn now c w :
  ((Check ext pn now c w).1 ≠ Val true →
   conn_expires (Check ext pn now c w).2 = conn_expires w)
  ∧ (∀ t, c = otherAuthentication t →
          conn_expires (Check ext pn now c w).2 = conn_expires w).
Proof.
  check_cases pn now c w; rewrite HC;
    destruct (Parse_onlyEvents ext _ _ _ _ _ HP) as (_ & _ & Hx & _);
    try subst w2; simpl; split; try done.
  intros t' ->. done.
Qed.



(** *** Denials and admissions, from the token *)

(** X6: a token of the RSA family whose kid is a string that the key table
    does not hold is denied whatever its signature and payload are: one
    read of the table, one trace line, and the connection is left as it
    was. *)
Theorem Check_unknown_kid_denied pn now c h p s alg kid w :
  GetOpts_JWT c = Compact h p s →
  declaredRSA h = Some alg →
  headerKid h = Some kid →
  jwks w !! kid = None →
  Check ext pn now c w
  = (Val false,
     withEvent (withEvent w (JwksRead kid))
       (Logged Trace (MsgParseFailed (ErrUnverifiable (ErrNoVerifier kid))))).
Proof.
  intros Hc Hrsa Hkid Hnone.
  apply (Check_parse_error ext pn now c w). rewrite Hc.
  by apply Parse_unknown_kid with alg.
Qed.

(** X7: a token whose kid names a key of the table but which does not
    validate under it (the signature does not verify, or a time claim
    fails at the parser's clock) is denied with one trace line, and the
    connection is left as it was, permissions or not. *)
Theorem Check_invalid_token_denied pn now c h p s alg kid key w :
  GetOpts_JWT c = Compact h p s →
  declaredRSA h = Some alg →
  headerKid h = Some kid →
  jwks w !! kid = Some key →
  validates ext pn h p s alg key = false →
  ∃ e,
    Check ext pn now c w
    = (Val false,
       withEvent (withEvent w (JwksRead kid))
         (Logged Trace (MsgParseFailed e))).
Proof.
  intros Hc Hrsa Hkid Hkey Hv.
  destruct (Parse_known_kid pn h p s alg kid key w Hrsa Hkid Hkey)
    as [_ Hno].
  destruct (Hno Hv) as [e HP]. exists e.
  apply (Check_parse_error ext pn now c w). by rewrite Hc.
Qed.


(** X9: the parser lets a token through until the end of the second in
    which it expires, [Check] only before that second. With both readings
    of the clock at the same, nonnegative second, a network client whose
    token the parser has accepted and whose permissions were mapped is
    denied by the expiration test exactly when the expiration is that very
    second, or 0, which the parser takes for none; in every other case it
    is admitted. *)
Theorem Check_boundary_second now t w tok w1 pc e :
  0 ≤ now →
  jwt.Parse ext now t keyFunc w = (Val (inr tok), w1) →
  jwt.Claims tok !! "permissions" = Some (Map pc) →
  expOfClaim (jwt.Claims tok !! "exp") = Some e →
  ((Check ext now now (client t) w).1 = Val false ↔ e = 0 ∨ e = now)
  ∧ ((Check ext now now (client t) w).1 = Val true ↔ e ≠ 0 ∧ e ≠ now).
Proof.
  intros Hnow HP Hpc He.
  destruct (Parse_ok_inv ext _ _ _ _ _ HP) as (_ & _ & Hexp).
  assert (e = 0 ∨ now ≤ e) as Hpass.
  { assert (∀ x, jwt.verifyExp x now = true → x = 0 ∨ now ≤ x) as Hv.
    { intros x. unfold jwt.verifyExp.
      destruct (Z.eqb_spec x 0); [auto|]. intros ?%Z.leb_le. auto. }
    unfold expOfClaim in He. unfold jwt.verifyTime in Hexp.
    destruct (jwt.Claims tok !! "exp") as [[| |f| |n| | | |]|]; try done;
      injection He as <-; by apply Hv. }
  rewrite (Check_client ext now now _ w _ _ _ HP Hpc), He.
  destruct (Z.geb_spec now e); simpl; split; split; try done; try lia.
Qed.

(** X10: the decision of [Check] depends on the token, the kind of the
    connection, the key table and the two readings of the clock only: the
    user and the deadline that the connection carries from before, and the
    log, have no part in it. *)
Theorem Check_decision_independent pn now c w w0 :
  jwks w = jwks w0 →
  (Check ext pn now c w).1 = (Check ext pn now c w0).1.
Proof.
  intros Hj.
  assert ((jwt.Parse ext pn (GetOpts_JWT c) keyFunc w).1
          = (jwt.Parse ext pn (GetOpts_JWT c) keyFunc w0).1) as HPeq.
  { destruct (GetOpts_JWT c) as [|h p s]; [done|].
    destruct (declaredRSA h) as [alg|] eqn:Hrsa.
    2: { destruct (Parse_no_rsa pn h p s Hrsa) as [e1 He1].
         by rewrite !He1. }
    destruct (headerKid h) as [kid|] eqn:Hkid.
    2: { by rewrite !(Parse_no_kid _ _ _ _ _ _ Hrsa Hkid). }
    destruct (jwks w !! kid) as [key|] eqn:Hkey.
    2: { rewrite (Parse_unknown_kid _ _ _ _ _ _ _ Hrsa Hkid Hkey).
         rewrite Hj in Hkey.
         by rewrite (Parse_unknown_kid _ _ _ _ _ _ _ Hrsa Hkid Hkey). }
    unfold jwt.Parse. rewrite (ParseUnverified_rsa _ p s _ Hrsa). run.
    rewrite !keyFunc_rsa, Hkid, <- Hj, Hkey. simpl.
    by match goal with |- context [if ?b then _ else _] => destruct b end. }
  check_cases pn now c w; rewrite HC; rewrite HP in HPeq; simpl in HPeq;
    destruct (jwt.Parse ext pn (GetOpts_JWT c) keyFunc w0)
      as [r0 w10] eqn:HP0; simpl in HPeq; subst r0; symmetry.
  - by rewrite (Check_parse_error ext pn now c w0 _ _ HP0).
  - by rewrite (Check_parse_panic ext pn now c w0 _ _ HP0).
  - by rewrite (Check_no_permissions ext pn now c w0 _ _ HP0 Hno).
  - subst c. simpl in HP0.
    by rewrite (Check_other ext pn now t w0 _ _ _ HP0 Hpc).
  - subst c. simpl in HP0.
    by rewrite (Check_client ext pn now t w0 _ _ _ HP0 Hpc), He.
  - subst c. simpl in HP0.
    rewrite (Check_client ext pn now t w0 _ _ _ HP0 Hpc), He.
    destruct (Z.geb_spec now e); [done|lia].
  - subst c. simpl in HP0.
    rewrite (Check_client ext pn now t w0 _ _ _ HP0 Hpc), He.
    destruct (Z.geb_spec now e); [lia|done].
Qed.

(** X11: [Check] panics on the tokens that declare an RSA algorithm and
    have no kid that is a string, and on no others: every other token gets
    a boolean. *)
Theorem Check_panics_iff pn now c w :
  (∃ pv, (Check ext pn now c w).1 = Panicked pv)
  ↔ keyless (GetOpts_JWT c) = true.
Proof.
  rewrite <- (Parse_panics pn _ w).
  check_cases pn now c w; rewrite HC, HP; simpl;
    split; intros [pv' H]; try done; by eexists.
Qed.

(** *** The key loader *)

Lemma readPublicKey_loaded env k sk w :
  ParseRSAPublicKeyFromPEM ext (strings.unescapeNewlines env) = Some k →
  ssh_NewPublicKey ext k = Some sk →
  readPublicKey ext env w = (Val None, withKey w (ssh_fingerprint ext sk) k).
Proof. intros Hpem Hssh. unfold readPublicKey. by rewrite Hpem, Hssh. Qed.

Lemma readPublicKey_bad_pem env w :
  ParseRSAPublicKeyFromPEM ext (strings.unescapeNewlines env) = None →
  readPublicKey ext env w = (Val (Some ErrBadPEM), w).
Proof. intros Hpem. unfold readPublicKey. by rewrite Hpem. Qed.

Lemma readPublicKey_no_ssh env k w :
  ParseRSAPublicKeyFromPEM ext (strings.unescapeNewlines env) = Some k →
  ssh_NewPublicKey ext k = None →
  readPublicKey ext env w
  = (Panicked NilPointerDereference,
     withEvent w (Logged Warn (MsgNoFingerprint ErrSSHKey))).
Proof. intros Hpem Hssh. unfold readPublicKey. by rewrite Hpem, Hssh. Qed.

Lemma bearerAuthFactory_inv env w w' :
  bearerAuthFactory ext env w = (Val true, w') →
  ∃ k sk,
    ParseRSAPublicKeyFromPEM ext (strings.unescapeNewlines env) = Some k
    ∧ ssh_NewPublicKey ext k = Some sk
    ∧ w' = withOnlyKey w (ssh_fingerprint ext sk) k.
Proof.
  unfold bearerAuthFactory. run.
  destruct (ParseRSAPublicKeyFromPEM ext (strings.unescapeNewlines env))
    as [k|] eqn:Hpem.
  2: { by rewrite (readPublicKey_bad_pem _ _ Hpem). }
  destruct (ssh_NewPublicKey ext k) as [sk|] eqn:Hssh.
  2: { by rewrite (readPublicKey_no_ssh _ _ _ Hpem Hssh). }
  rewrite (readPublicKey_loaded _ _ _ _ Hpem Hssh).
  intros [= <-]. exists k, sk. split_and!; [done|done|].
  unfold withKey, withOnlyKey. simpl. by rewrite insert_empty.
Qed.

(** X12: loading a key that parses and that the SSH library can wrap
    returns no error and logs nothing; afterwards the table holds the key
    under its fingerprint and every other fingerprint is as before. *)
Theorem readPublicKey_indexes_key env k sk w :
  ParseRSAPublicKeyFromPEM ext (strings.unescapeNewlines env) = Some k →
  ssh_NewPublicKey ext k = Some sk →
  (readPublicKey ext env w).1 = Val None
  ∧ jwks (readPublicKey ext env w).2 !! ssh_fingerprint ext sk = Some k
  ∧ (∀ fp, fp ≠ ssh_fingerprint ext sk →
           jwks (readPublicKey ext env w).2 !! fp = jwks w !! fp)
  ∧ events (readPublicKey ext env w).2 = events w.
Proof.
  intros Hpem Hssh. rewrite (readPublicKey_loaded _ _ _ _ Hpem Hssh). simpl.
  split_and!; [done | apply lookup_insert_eq | | done].
  intros fp Hne. by rewrite lookup_insert_ne.
Qed.

(** X13: [readPublicKey] returns an error exactly when the key material of
    the environment does not parse as a PEM public key, and then it has
    changed and logged nothing. *)
Theorem readPublicKey_error_iff env w :
  ((∃ e, (readPublicKey ext env w).1 = Val (Some e))
   ↔ ParseRSAPublicKeyFromPEM ext (strings.unescapeNewlines env) = None)
  ∧ (ParseRSAPublicKeyFromPEM ext (strings.unescapeNewlines env) = None →
     (readPublicKey ext env w).2 = w).
Proof.
  destruct (ParseRSAPublicKeyFromPEM ext (strings.unescapeNewlines env))
    as [k|] eqn:Hpem.
  - split; [|done]. split; [|done]. intros [e He]. revert He.
    destruct (ssh_NewPublicKey ext k) as [sk|] eqn:Hssh.
    + by rewrite (readPublicKey_loaded _ _ _ _ Hpem Hssh).
    + by rewrite (readPublicKey_no_ssh _ _ _ Hpem Hssh).
  - rewrite (readPublicKey_bad_pem _ _ Hpem). simpl.
    split; [|done]. split; [done|]. by eexists.
Qed.

(** X14: an authenticator that the factory returns holds one key and no
    more, the key of the environment under its fingerprint, whatever table
    was there before; the connection and the log are not touched. *)
Theorem bearerAuthFactory_single_key env w w' :
  bearerAuthFactory ext env w = (Val true, w') →
  ∃ k sk,
    ParseRSAPublicKeyFromPEM ext (strings.unescapeNewlines env) = Some k
    ∧ ssh_NewPublicKey ext k = Some sk
    ∧ jwks w' = {[ ssh_fingerprint ext sk := k ]}
    ∧ size (jwks w') = 1%nat
    ∧ conn_user w' = conn_user w ∧ conn_expires w' = conn_expires w
    ∧ events w' = events w.
Proof.
  intros (k & sk & Hpem & Hssh & ->)%bearerAuthFactory_inv.
  exists k, sk. split_and!; try done. simpl. apply map_size_singleton.
Qed.

(** X15: the factory refuses to build an authenticator exactly when the key
    material of the environment does not parse, and it leaves the
    connection and the log alone when it does. *)
Theorem bearerAuthFactory_fails_iff env w :
  ((bearerAuthFactory ext env w).1 = Val false
   ↔ ParseRSAPublicKeyFromPEM ext (strings.unescapeNewlines env) = None)
  ∧ ((bearerAuthFactory ext env w).1 = Val false →
     conn_user (bearerAuthFactory ext env w).2 = conn_user w
     ∧ events (bearerAuthFactory ext env w).2 = events w).
Proof.
  unfold bearerAuthFactory. run.
  destruct (ParseRSAPublicKeyFromPEM ext (strings.unescapeNewlines env))
    as [k|] eqn:Hpem.
  - destruct (ssh_NewPublicKey ext k) as [sk|] eqn:Hssh.
    + rewrite (readPublicKey_loaded _ _ _ _ Hpem Hssh). simpl.
      split; [split|]; done.
    + rewrite (readPublicKey_no_ssh _ _ _ Hpem Hssh). simpl.
      split; [split|]; done.
  - rewrite (readPublicKey_bad_pem _ _ Hpem). simpl.
    split; [split|]; done.
Qed.

(** X16: start-up and admission together. On an authenticator that the
    factory has returned, [Check] admits a token only if its kid is the
    fingerprint of the key of the environment and the token validates
    under that key. *)
Theorem Check_after_factory env pn now c w0 w w' :
  bearerAuthFactory ext env w0 = (Val true, w) →
  Check ext pn now c w = (Val true, w') →
  ∃ k sk h p s alg,
    ParseRSAPublicKeyFromPEM ext (strings.unescapeNewlines env) = Some k
    ∧ ssh_NewPublicKey ext k = Some sk
    ∧ GetOpts_JWT c = Compact h p s
    ∧ declaredRSA h = Some alg
    ∧ headerKid h = Some (ssh_fingerprint ext sk)
    ∧ validates ext pn h p s alg k = true.
Proof.
  intros (k & sk & Hpem & Hssh & ->)%bearerAuthFactory_inv.
  check_cases pn now c (withOnlyKey w0 (ssh_fingerprint ext sk) k);
    rewrite HC; try done; intros _.
  all: destruct (Parse_ok_sound _ _ _ _ _ HP)
      as (h & p & s & alg & kid & key & Ht & Hrsa & Hkid & Hkey & Hv & _);
    simpl in Hkey; apply lookup_singleton_Some in Hkey as [<- <-];
    by exists k, sk, h, p, s, alg.
Qed.

(** *** The newline escapes of the environment, line 34 *)

Lemma unescapeNewlines_cons c r :
  strings.unescapeNewlines (String c r)
  = if Ascii.eqb c "\" then
      match r with
      | String d r' =>
          if Ascii.eqb d "n" then String "010" (strings.unescapeNewlines r')
          else String c (strings.unescapeNewlines r)
      | EmptyString => String c EmptyString
      end
    else String c (strings.unescapeNewlines r).
Proof.
  destruct c as [[] [] [] [] [] [] [] []]; try reflexivity.
  destruct r as [|d r']; [reflexivity|].
  destruct d as [[] [] [] [] [] [] [] []]; reflexivity.
Qed.

Lemma hasEscape_cons c r :
  hasEscape (String c r)
  = if Ascii.eqb c "\" then
      match r with
      | String d _ => if Ascii.eqb d "n" then true else hasEscape r
      | EmptyString => false
      end
    else hasEscape r.
Proof.
  destruct c as [[] [] [] [] [] [] [] []]; try reflexivity.
  destruct r as [|d r']; [reflexivity|].
  destruct d as [[] [] [] [] [] [] [] []]; reflexivity.
Qed.

(** The first character of the result is the letter n only when that of
    the input is. *)
Lemma unescapeNewlines_head s d u :
  strings.unescapeNewlines s = String d u → Ascii.eqb d "n" = true →
  ∃ r, s = String d r.
Proof.
  destruct s as [|c r]; [done|]. rewrite unescapeNewlines_cons.
  destruct (Ascii.eqb c "\") eqn:Hc.
  - destruct r as [|e r'].
    + intros [= <- _]. by eexists.
    + destruct (Ascii.eqb e "n").
      * intros [= <- _]. done.
      * intros [= <- _]. by eexists.
  - intros [= <- _]. by eexists.
Qed.

Lemma hasEscape_unescapeNewlines_le n s :
  (String.length s ≤ n)%nat → hasEscape (strings.unescapeNewlines s) = false.
Proof.
  revert s. induction n as [|n IH]; intros s Hlen.
  { destruct s; [done|simpl in Hlen; lia]. }
  destruct s as [|c r]; [done|]. simpl in Hlen.
  rewrite unescapeNewlines_cons.
  destruct (Ascii.eqb c "\") eqn:Hc.
  - destruct r as [|d r']; [by rewrite hasEscape_cons, Hc|].
    simpl in Hlen.
    destruct (Ascii.eqb d "n") eqn:Hd.
    + rewrite hasEscape_cons. simpl. apply IH. lia.
    + rewrite hasEscape_cons, Hc.
      destruct (strings.unescapeNewlines (String d r')) as [|d' u] eqn:Hu;
        [done|].
      destruct (Ascii.eqb d' "n") eqn:Hd'.
      * destruct (unescapeNewlines_head _ _ _ Hu Hd') as [r'' [= -> _]].
        congruence.
      * rewrite <- Hu. apply IH. simpl. lia.
  - rewrite hasEscape_cons, Hc. apply IH. lia.
Qed.

Lemma unescapeNewlines_id s :
  hasEscape s = false → strings.unescapeNewlines s = s.
Proof.
  induction s as [|c r IH]; [done|].
  rewrite hasEscape_cons, unescapeNewlines_cons.
  destruct (Ascii.eqb c "\").
  - destruct r as [|d r']; [done|].
    destruct (Ascii.eqb d "n"); [done|]. intros H. by rewrite IH.
  - intros H. by rewrite IH.
Qed.

(** X17: after line 34 the key text holds no backslash followed by the
    letter n any more, and handling it a second time changes nothing. *)
Theorem unescapeNewlines_clears_escapes s :
  hasEscape (strings.unescapeNewlines s) = false
  ∧ strings.unescapeNewlines (strings.unescapeNewlines s)
    = strings.unescapeNewlines s.
Proof.
  assert (hasEscape (strings.unescapeNewlines s) = false) as H.
  { by apply (hasEscape_unescapeNewlines_le (String.length s)). }
  split; [done|]. by apply unescapeNewlines_id.
Qed.

(** X18: key text without such an escape, as a PEM block with real line
    feeds is, passes line 34 unchanged, and the text never grows. *)
Theorem unescapeNewlines_keeps_plain_text s :
  (hasEscape s = false → strings.unescapeNewlines s = s)
  ∧ (String.length (strings.unescapeNewlines s) ≤ String.length s)%nat.
Proof.
  split; [apply unescapeNewlines_id|].
  assert (∀ n s, (String.length s ≤ n)%nat →
            (String.length (strings.unescapeNewlines s) ≤ String.length s)%nat)
    as Hle.
  { clear s. induction n as [|n IH]; intros s Hlen.
    { destruct s; [done|simpl in Hlen; lia]. }
    destruct s as [|c r]; [done|]. simpl in Hlen.
    rewrite unescapeNewlines_cons.
    destruct (Ascii.eqb c "\").
    - destruct r as [|d r']; [done|]. simpl in Hlen.
      destruct (Ascii.eqb d "n").
      + specialize (IH r'). simpl. lia.
      + specialize (IH (String d r')). simpl in *. lia.
    - specialize (IH r). simpl. lia. }
  by apply (Hle (String.length s)).
Qed.

(** *** The permissions map, lines 88-109 *)

(** X19: the defaulting of lines 90-107 changes no entry that the token
    gives, whatever its value, and adds exactly those of the three groups
    that are missing; no other key appears. *)
Theorem applyDefaults_lookup (m : gmap string value) (k : string) :
  applyDefaults ext m !! k
  = match m !! k with
    | Some v => Some v
    | None =>
        if bool_decide (k = "publish") then Some emptySubject
        else if bool_decide (k = "subscribe") then Some emptySubject
        else if bool_decide (k = "responses") then Some (defaultResponses ext)
        else None
    end.
Proof.
  unfold applyDefaults.
  destruct (decide (k = "responses")) as [->|Hr].
  { rewrite setIfAbsent_lookup, !setIfAbsent_lookup_ne by done.
    by destruct (m !! "responses"). }
  rewrite setIfAbsent_lookup_ne by done.
  destruct (decide (k = "subscribe")) as [->|Hs].
  { rewrite setIfAbsent_lookup, setIfAbsent_lookup_ne by done.
    by destruct (m !! "subscribe"). }
  rewrite setIfAbsent_lookup_ne by done.
  destruct (decide (k = "publish")) as [->|Hp].
  { rewrite setIfAbsent_lookup. by destruct (m !! "publish"). }
  rewrite setIfAbsent_lookup_ne by done.
  rewrite !bool_decide_eq_false_2 by done. by destruct (m !! k).
Qed.

Lemma decode_strings (l : list string) :
  json.decode (JArr (JStr <$> l)) = Slice (Str <$> l).
Proof. simpl. f_equal. rewrite <- list_fmap_compose. done. Qed.

Lemma unmarshalStrings_strings (l : list string) :
  unmarshalStrings (Some (Slice (Str <$> l))) = Some l.
Proof.
  simpl. f_equal. rewrite <- list_fmap_compose.
  rewrite <- (list_fmap_id l) at 2. by apply list_fmap_ext.
Qed.

Lemma unmarshalSubject_lists (g : gmap string text) la ld :
  g !! "allow" = Some (JArr (JStr <$> la)) →
  g !! "deny" = Some (JArr (JStr <$> ld)) →
  unmarshalSubject (Some (json.decode (JObj g)))
  = Some {| Allow := Some la; Deny := Some ld |}.
Proof.
  intros Ha Hd. simpl. rewrite !lookup_fmap, Ha, Hd.
  change (json.decode <$> Some (JArr (JStr <$> la)))
    with (Some (json.decode (JArr (JStr <$> la)))).
  change (json.decode <$> Some (JArr (JStr <$> ld)))
    with (Some (json.decode (JArr (JStr <$> ld)))).
  by rewrite !decode_strings, !unmarshalStrings_strings.
Qed.

(** X20: the subjects of the token arrive in the policy as they are. For a
    permissions object that has no keys besides the three groups, a publish
    or subscribe group that gives its allow and deny lists as arrays of
    strings is registered with exactly those lists, in their order. *)
Theorem policyOf_keeps_subject_lists (o g : gmap string text) la ld :
  (∀ k, is_Some (o !! k) → k ∈ groupKeys) →
  g !! "allow" = Some (JArr (JStr <$> la)) →
  g !! "deny" = Some (JArr (JStr <$> ld)) →
  (o !! "publish" = Some (JObj g) →
   Publish (policyOf ext o) = Some {| Allow := Some la; Deny := Some ld |})
  ∧ (o !! "subscribe" = Some (JObj g) →
     Subscribe (policyOf ext o) = Some {| Allow := Some la; Deny := Some ld |}).
Proof.
  intros _ Ha Hd. unfold policyOf, unmarshalPermissions. simpl.
  rewrite applyDefaults_publish, applyDefaults_subscribe, !lookup_fmap.
  split; intros ->; simpl; by apply unmarshalSubject_lists.
Qed.

(** *** The log of a denial, and the loaded key at work *)

(** X21: every denial ends the log with a line that names its cause, with
    one exception: when a network client is denied because its expiration
    has been reached, lines 133-135 log nothing, and the last line is the
    one that announced the registration of the user. *)
Theorem Check_denial_last_line pn now c w w' :
  Check ext pn now c w = (Val false, w') →
  (∃ e, last (events w') = Some (Logged Trace (MsgParseFailed e)))
  ∨ last (events w') = Some (Logged Warn MsgNoPermissionsClaim)
  ∨ last (events w') = Some (Logged Trace MsgBadExpiration)
  ∨ (∃ t tok w1 e p,
       c = client t
       ∧ jwt.Parse ext pn t keyFunc w = (Val (inr tok), w1)
       ∧ expOfClaim (jwt.Claims tok !! "exp") = Some e ∧ e ≤ now
       ∧ conn_user w' = Some {| user_Permissions := p |}
       ∧ last (events w') = Some (Logged Trace (MsgRegistering p))).
Proof.
  check_cases pn now c w; rewrite HC; try done; intros [= <-].
  - left. exists e. apply last_snoc.
  - right; left. apply last_snoc.
  - right; right; left. apply last_snoc.
  - right; right; right. subst c w2. simpl in HP.
    exists t, tok, w1, e, (unmarshalPermissions ext (applyDefaults ext pc)).
    split_and!; try done. apply last_snoc.
Qed.

(** X22: the fingerprint taken at start-up is the kid that admits. On the
    authenticator that the factory builds from a key [k] with SSH form
    [sk], a token of the RSA family that validates under [k] and holds a
    permissions object is admitted when its kid is the fingerprint of [sk],
    and a token with any other kid is denied, valid or not. *)
Theorem Check_on_loaded_key env pn now k sk h p s alg kid w0 :
  ParseRSAPublicKeyFromPEM ext (strings.unescapeNewlines env) = Some k →
  ssh_NewPublicKey ext k = Some sk →
  declaredRSA h = Some alg →
  headerKid h = Some kid →
  let w := (bearerAuthFactory ext env w0).2 in
  (kid = ssh_fingerprint ext sk →
   validates ext pn h p s alg k = true →
   is_Some (permissionsOf p) →
   (Check ext pn now (otherAuthentication (Compact h p s)) w).1 = Val true)
  ∧ (kid ≠ ssh_fingerprint ext sk →
     ∀ c, GetOpts_JWT c = Compact h p s →
          (Check ext pn now c w).1 = Val false).
Proof.
  intros Hpem Hssh Hrsa Hkid w.
  assert (w = withOnlyKey w0 (ssh_fingerprint ext sk) k) as ->.
  { subst w. unfold bearerAuthFactory. run.
    rewrite (readPublicKey_loaded _ _ _ _ Hpem Hssh). simpl.
    unfold withKey, withOnlyKey. simpl. by rewrite insert_empty. }
  split.
  - intros -> Hv [o Ho].
    assert (jwks (withOnlyKey w0 (ssh_fingerprint ext sk) k)
              !! ssh_fingerprint ext sk = Some k) as Hkey.
    { simpl. apply lookup_singleton_eq. }
    destruct (Parse_known_kid pn h p s alg _ k _ Hrsa Hkid Hkey) as [Hyes _].
    rewrite (Check_other ext pn now _ _ _ _ _ (Hyes Hv)
               (permissions_encoded h p s alg o Ho)).
    done.
  - intros Hne c Hc.
    assert (jwks (withOnlyKey w0 (ssh_fingerprint ext sk) k) !! kid = None)
      as Hnone.
    { simpl. by apply lookup_singleton_ne. }
    rewrite (Check_parse_error ext pn now c _
               (ErrUnverifiable (ErrNoVerifier kid))
               (withEvent (withOnlyKey w0 (ssh_fingerprint ext sk) k)
                  (JwksRead kid))); [done|].
    rewrite Hc. by apply Parse_unknown_kid with alg.
Qed.

(** X23: the [json.Number] case of the switch of lines 122-130 is never
    taken: in the claims of a token that the parser returns no value is a
    [json.Number], the expiration no more than any other, so a token's
    expiration reaches [Check] as a float64 or in none of the accepted
    forms. *)
Theorem Check_never_sees_json_Number pn t w tok w1 :
  jwt.Parse ext pn t keyFunc w = (Val (inr tok), w1) →
  (∀ k n, jwt.Claims tok !! k ≠ Some (Number n))
  ∧ (∀ e, expOfClaim (jwt.Claims tok !! "exp") = Some e →
          ∃ f, jwt.Claims tok !! "exp" = Some (Float64 f)
               ∧ e = int64_of_float64 f).
Proof.
  intros HP.
  destruct (Parse_ok_inv ext _ _ _ _ _ HP) as (HU & _ & _).
  apply ParseUnverified_inv in HU as (h & p & s & alg & _ & _ & _ & _ & HC).
  assert (∀ k n, jwt.Claims tok !! k ≠ Some (Number n)) as Hno.
  { intros k n. rewrite HC, lookup_fmap.
    by destruct (p !! k) as [[]|]. }
  split; [exact Hno|].
  intros e He. unfold expOfClaim in He.
  destruct (jwt.Claims tok !! "exp") as [[| |f| |n| | | |]|] eqn:Hexp;
    try done.
  - injection He as <-. by exists f.
  - by destruct (Hno "exp" n).
Qed.

End Coverage.

(* ===================================================================== *)
(** * The further properties on concrete cases *)

Import Scenario.

(** X3, witness: a denied client keeps its earlier deadline, and a value that
    is no client keeps it even when admitted. *)
Lemma Check_deadline_only_on_admission_witness :
  (Check ext 1000 1000 (client tokenNoPolicy) busy).1 ≠ Val true
  ∧ conn_expires (Check ext 1000 1000 (client tokenNoPolicy) busy).2 = Some 5
  ∧ conn_expires
      (Check ext 1000 1000 (otherAuthentication (token None)) busy).2
    = Some 5.
Proof.
  split; [by vm_compute|]. split.
  - apply (proj1 (Check_deadline_only_on_admission ext 1000 1000
                    (client tokenNoPolicy) busy)).
    by vm_compute.
  - apply (proj2 (Check_deadline_only_on_admission ext 1000 1000
                    (otherAuthentication (token None)) busy) (token None)).
    reflexivity.
Defined.


(** X6, witness: a kid that the table does not hold. *)
Lemma Check_unknown_kid_denied_witness :
  jwks started !! "zz" = None
  ∧ (Check ext 1000 1000
       (client (Compact headerOtherKid (payload None) "good")) started).1
    = Val false.
Proof.
  split; [by vm_compute|].
  rewrite (Check_unknown_kid_denied ext 1000 1000 _ headerOtherKid
             (payload None) "good" "RS256" "zz" started);
    [done | done | by vm_compute | by vm_compute | by vm_compute].
Defined.

(** X7, witness: the sample token with a signature that does not verify. *)
Lemma Check_invalid_token_denied_witness :
  validates ext 1000 header (payload None) "bad" "RS256" key = false
  ∧ ∃ e,
      Check ext 1000 1000 (client forged) started
      = (Val false,
         withEvent (withEvent started (JwksRead "fp"))
           (Logged Trace (MsgParseFailed e))).
Proof.
  split; [by vm_compute|].
  apply (Check_invalid_token_denied ext 1000 1000 (client forged) header
           (payload None) "bad" "RS256" "fp" key started); by vm_compute.
Defined.


(** X9, witness: a token that expires in the very second of the check. *)
Lemma Check_boundary_second_witness :
  (Check ext 1000 1000 (client (token (Some (num 1000)))) started).1
  = Val false.
Proof.
  apply (proj1 (Check_boundary_second ext 1000 (token (Some (num 1000)))
                  started (parsed (token (Some (num 1000)))) afterParse
                  (json.decode <$> policyMap) 1000
                  ltac:(lia) ltac:(by vm_compute) ltac:(by vm_compute)
                  ltac:(by vm_compute))).
  by right.
Defined.

(** X10, witness: the sample token on a fresh and on a used connection. *)
Lemma Check_decision_independent_witness :
  conn_user started ≠ conn_user busy
  ∧ (Check ext 1000 1000 (client (token (Some (num 2000)))) started).1
    = (Check ext 1000 1000 (client (token (Some (num 2000)))) busy).1.
Proof.
  split; [done|].
  apply (Check_decision_independent ext 1000 1000 _ started busy).
  reflexivity.
Defined.

(** X11, witness: the token without a kid, and the sample token. *)
Lemma Check_panics_iff_witness :
  (∃ pv, (Check ext 1000 1000
            (client (Compact headerNoKid (payload None) "good")) started).1
         = Panicked pv)
  ∧ ¬ (∃ pv, (Check ext 1000 1000 (client (token None)) started).1
             = Panicked pv).
Proof.
  split.
  - apply (proj2 (Check_panics_iff ext 1000 1000
                    (client (Compact headerNoKid (payload None) "good"))
                    started)).
    by vm_compute.
  - intros H.
    apply (proj1 (Check_panics_iff ext 1000 1000 (client (token None))
                    started)) in H.
    by vm_compute in H.
Defined.

(** X12, witness: loading the sample key into an empty table. *)
Lemma readPublicKey_indexes_key_witness :
  (readPublicKey ext "-----BEGIN PUBLIC KEY-----" fresh).1 = Val None
  ∧ jwks (readPublicKey ext "-----BEGIN PUBLIC KEY-----" fresh).2 !! "fp"
    = Some key.
Proof.
  destruct (readPublicKey_indexes_key ext "-----BEGIN PUBLIC KEY-----" key key
              fresh) as (Hr & Hk & _); [done | done |].
  split; [exact Hr | exact Hk].
Defined.

(** X13, witness: key text that does not parse. *)
Lemma readPublicKey_error_iff_witness :
  (∃ e, (readPublicKey extNoPEM "no key" fresh).1 = Val (Some e))
  ∧ (readPublicKey extNoPEM "no key" fresh).2 = fresh.
Proof.
  destruct (readPublicKey_error_iff extNoPEM "no key" fresh) as [Hiff Hw].
  split; [by apply Hiff | by apply Hw].
Defined.

(** X14, witness: the factory on the sample key, over a table that held
    another key. *)
Lemma bearerAuthFactory_single_key_witness :
  ∃ k sk,
    jwks (bearerAuthFactory ext "-----BEGIN PUBLIC KEY-----"
            (withKey fresh "old" {| N := 15; E := 3 |})).2
    = {[ ssh_fingerprint ext sk := k ]}.
Proof.
  destruct (bearerAuthFactory_single_key ext "-----BEGIN PUBLIC KEY-----"
              (withKey fresh "old" {| N := 15; E := 3 |})
              (bearerAuthFactory ext "-----BEGIN PUBLIC KEY-----"
                 (withKey fresh "old" {| N := 15; E := 3 |})).2)
    as (k & sk & _ & _ & Hj & _); [by vm_compute|].
  by exists k, sk.
Defined.

(** X15, witness: the factory on key text that does not parse. *)
Lemma bearerAuthFactory_fails_iff_witness :
  (bearerAuthFactory extNoPEM "no key" fresh).1 = Val false
  ∧ events (bearerAuthFactory extNoPEM "no key" fresh).2 = [].
Proof.
  destruct (bearerAuthFactory_fails_iff extNoPEM "no key" fresh)
    as [Hiff Hw].
  assert ((bearerAuthFactory extNoPEM "no key" fresh).1 = Val false) as H
    by (by apply Hiff).
  split; [exact H | by apply Hw].
Defined.

(** X16, witness: the sample token on the authenticator the factory
    builds. *)
Lemma Check_after_factory_witness :
  ∃ k sk h p s alg,
    ssh_NewPublicKey ext k = Some sk
    ∧ token (Some (num 2000)) = Compact h p s
    ∧ headerKid h = Some (ssh_fingerprint ext sk)
    ∧ validates ext 1000 h p s alg k = true.
Proof.
  destruct (Check_after_factory ext "-----BEGIN PUBLIC KEY-----" 1000 1000
              (client (token (Some (num 2000)))) fresh started
              (Check ext 1000 1000 (client (token (Some (num 2000))))
                 started).2)
    as (k & sk & h & p & s & alg & _ & Hssh & Ht & _ & Hkid & Hv);
    [by vm_compute | by vm_compute |].
  by exists k, sk, h, p, s, alg.
Defined.

(** X18, witness: a PEM header line with a real line feed. *)
Lemma unescapeNewlines_keeps_plain_text_witness :
  strings.unescapeNewlines (String "a" (String "010" "b"))
  = String "a" (String "010" "b").
Proof.
  apply (proj1 (unescapeNewlines_keeps_plain_text
                  (String "a" (String "010" "b")))).
  reflexivity.
Defined.

(** X20, witness: a publish group with two allowed subjects and one
    denied. *)
Lemma policyOf_keeps_subject_lists_witness :
  Publish (policyOf ext subjectsPolicy)
  = Some {| Allow := Some ["orders.*"; "bills.>"];
            Deny := Some ["orders.secret"] |}.
Proof.
  apply (proj1 (policyOf_keeps_subject_lists ext subjectsPolicy subjects
                  ["orders.*"; "bills.>"] ["orders.secret"]
                  ltac:(intros k [v Hk]; unfold subjectsPolicy in Hk;
                        apply lookup_insert_Some in Hk
                          as [[<- _]|[_ Hk]]; [by left | done])
                  ltac:(by vm_compute) ltac:(by vm_compute))).
  by vm_compute.
Defined.

(** X21, witness: the token without a policy claim. *)
Lemma Check_denial_last_line_witness :
  last (events (Check ext 1000 1000 (client tokenNoPolicy) started).2)
  = Some (Logged Warn MsgNoPermissionsClaim).
Proof.
  destruct (Check_denial_last_line ext 1000 1000 (client tokenNoPolicy)
              started
              (Check ext 1000 1000 (client tokenNoPolicy) started).2)
    as [[e He] | [Hw | [Hb | (t & tok & w1 & e & p & _ & _ & _ & _ & _ & Hr)]]];
    [by vm_compute | by vm_compute in He | exact Hw
    | by vm_compute in Hb | by vm_compute in Hr].
Defined.

(** X22, witness: the sample token, and one with another kid, on the
    authenticator built from the sample key. *)
Lemma Check_on_loaded_key_witness :
  (Check ext 1000 1000 (otherAuthentication (token None))
     (bearerAuthFactory ext "-----BEGIN PUBLIC KEY-----" fresh).2).1
  = Val true.
Proof.
  apply (proj1 (Check_on_loaded_key ext "-----BEGIN PUBLIC KEY-----" 1000 1000
                  key key header (payload None) "good" "RS256" "fp" fresh
                  ltac:(done) ltac:(done) ltac:(by vm_compute)
                  ltac:(by vm_compute)));
    [done | by vm_compute | by eexists; vm_compute].
Defined.

(** X23, witness: the sample token with a numeric expiration. *)
Lemma Check_never_sees_json_Number_witness :
  ∃ f, jwt.Claims (parsed (token (Some (num 2000)))) !! "exp"
       = Some (Float64 f)
       ∧ 2000 = int64_of_float64 f.
Proof.
  apply (proj2 (Check_never_sees_json_Number ext 1000
                  (token (Some (num 2000))) started
                  (parsed (token (Some (num 2000)))) afterParse
                  ltac:(by vm_compute)) 2000).
  by vm_compute.
Defined.
